(** * Lectron: gene blocks on a board

    A shallow embedding of [src/lectron/blocks.py] (class [GeneBlock]) and
    [src/lectron/board.py] (class [Board]), and of the set-up and the two
    loops of [yeast_cell_cycle.py].

    - Python objects are mutable and shared by reference: a [GeneBlock] lives in
      an object [store] and the board keeps references to it.
    - Python exceptions are values of [exn]; a method that can raise returns a
      [result], and a method that mutates before it raises returns the state it
      left behind together with the exception.
    - Python's [float] is IEEE binary64.  The block arithmetic is written once
      over an interface [Number] and read at two carriers: [float] (Rocq's
      primitive binary64 numbers, what the interpreter computes) and [Q]
      (exact rationals, the arithmetic the Euler recurrences are stated in).
    - numpy's [dtype=int] is [int64]: an entry of the connection matrix is an
      integer [Z] in the range of [int64]; storing a Python int outside that
      range raises [OverflowError], and the sums and products inside
      [np.matmul] wrap around modulo [2 ^ 64]. *)

From Stdlib Require Import ZArith QArith Qround Qpower Floats Lia Lra Psatz.
From stdpp Require Import gmap strings list.

(** ** Exceptions and results *)

Inductive exn : Type :=
| KeyError (msg : string)
| ValueError
| IndexError
| ZeroDivisionError
| OverflowError.

Inductive result (A : Type) : Type :=
| Ok (a : A)
| Raise (e : exn).
Arguments Ok {A} a.
Arguments Raise {A} e.

(** A computation over a mutable state [S]: the state it leaves, and either a
    value or the exception that stopped it. *)
Definition St (S A : Type) : Type := S -> S * result A.

#[global] Instance St_ret (S : Type) : MRet (St S) :=
  fun A a s => (s, Ok a).
#[global] Instance St_bind (S : Type) : MBind (St S) :=
  fun A B k m s =>
    match m s with
    | (s', Ok a) => k a s'
    | (s', Raise e) => (s', Raise e)
    end.

Definition lift {S A : Type} (r : result A) : St S A := fun s => (s, r).
Definition get_state {S : Type} : St S S := fun s => (s, Ok s).
Definition modify {S : Type} (f : S -> S) : St S unit := fun s => (f s, Ok tt).

(** [for x in l: body x] *)
Fixpoint for_each {S A : Type} (l : list A) (body : A -> St S unit) : St S unit :=
  match l with
  | [] => mret tt
  | x :: l' => body x ;; for_each l' body
  end.

(** ** Numbers

    The operations [blocks.py] applies to voltages, hysteresis and time
    constants.  [is_zero] is the test behind [ZeroDivisionError]; [leb] is
    used in statements only. *)

Class Number (F : Type) : Type := {
  add : F -> F -> F;
  sub : F -> F -> F;
  mul : F -> F -> F;
  div : F -> F -> F;
  gtb : F -> F -> bool;
  leb : F -> F -> bool;
  is_zero : F -> bool;
  lit_9_0 : F;
  lit_1em3 : F;
  lit_0_0 : F;
  int_2 : F
}.

Declare Scope num_scope.
Delimit Scope num_scope with num.
Infix "+" := add : num_scope.
Infix "-" := sub : num_scope.
Infix "*" := mul : num_scope.
Infix "/" := div : num_scope.
Infix ">?" := gtb (at level 70, no associativity) : num_scope.
Infix "<=?" := leb : num_scope.

(** The order law the comparator relies on: a value above the upper of two
    ordered thresholds is above the lower one. *)
Class NumberOrder (F : Type) `{Number F} : Prop := {
  gtb_leb_trans : forall v lo hi : F,
    gtb v hi = true -> leb lo hi = true -> gtb v lo = true
}.

(** IEEE binary64.  [1e-3] is not a binary64 number; the literal denotes the
    nearest one, written here in hexadecimal. *)
#[global] Instance float_Number : Number float := {|
  add := PrimFloat.add;
  sub := PrimFloat.sub;
  mul := PrimFloat.mul;
  div := PrimFloat.div;
  gtb := fun x y => PrimFloat.ltb y x;
  leb := PrimFloat.leb;
  is_zero := fun x => PrimFloat.eqb x 0%float;
  lit_9_0 := 9%float;
  lit_1em3 := 0x1.0624dd2f1a9fcp-10%float;
  lit_0_0 := 0%float;
  int_2 := 2%float
|}.

(** Exact rationals. *)
#[global] Instance Q_Number : Number Q := {|
  add := Qplus;
  sub := Qminus;
  mul := Qmult;
  div := Qdiv;
  gtb := fun x y => negb (Qle_bool x y);
  leb := Qle_bool;
  is_zero := fun x => Qeq_bool x 0%Q;
  lit_9_0 := 9%Q;
  lit_1em3 := (1 # 1000)%Q;
  lit_0_0 := 0%Q;
  int_2 := 2%Q
|}.

(** ** blocks.py *)

Section GeneBlock.
Context {F : Type} `{Number F}.
Local Open Scope num_scope.

Definition MAX_VOLTAGE : F := lit_9_0.
Definition DELTA_T : F := lit_1em3.

Record GeneBlock : Type := {
  hysteresis : F;
  threshhold : Z;
  time_constant : F;
  label : string;
  _voltage : F;
  _is_active : bool
}.

(** [GeneBlock.__init__] *)
Definition new_GeneBlock (hysteresis : F) (threshhold : Z) (time_constant : F)
    (label : string) : GeneBlock :=
  {| hysteresis := hysteresis; threshhold := threshhold;
     time_constant := time_constant; label := label;
     _voltage := lit_0_0; _is_active := false |}.

(** [self._voltage = v] and [self._is_active = a] *)
Definition set_voltage (v : F) (b : GeneBlock) : GeneBlock :=
  {| hysteresis := hysteresis b; threshhold := threshhold b;
     time_constant := time_constant b; label := label b;
     _voltage := v; _is_active := _is_active b |}.
Definition set_active (a : bool) (b : GeneBlock) : GeneBlock :=
  {| hysteresis := hysteresis b; threshhold := threshhold b;
     time_constant := time_constant b; label := label b;
     _voltage := _voltage b; _is_active := a |}.

Definition set_hysteresis (h : F) (b : GeneBlock) : GeneBlock :=
  {| hysteresis := h; threshhold := threshhold b;
     time_constant := time_constant b; label := label b;
     _voltage := _voltage b; _is_active := _is_active b |}.
Definition set_threshhold (t : Z) (b : GeneBlock) : GeneBlock :=
  {| hysteresis := hysteresis b; threshhold := t;
     time_constant := time_constant b; label := label b;
     _voltage := _voltage b; _is_active := _is_active b |}.
Definition set_time_constant (tc : F) (b : GeneBlock) : GeneBlock :=
  {| hysteresis := hysteresis b; threshhold := threshhold b;
     time_constant := tc; label := label b;
     _voltage := _voltage b; _is_active := _is_active b |}.
Definition set_label (l : string) (b : GeneBlock) : GeneBlock :=
  {| hysteresis := hysteresis b; threshhold := threshhold b;
     time_constant := time_constant b; label := l;
     _voltage := _voltage b; _is_active := _is_active b |}.

Definition get_label (b : GeneBlock) : string := label b.
Definition get_voltage (b : GeneBlock) : F := _voltage b.

(** [GeneBlock.is_active]: the block after the call and the returned int. *)
Definition is_active (b : GeneBlock) : GeneBlock * Z :=
  if _is_active b
     && (_voltage b >? MAX_VOLTAGE / int_2 - hysteresis b * MAX_VOLTAGE / int_2)
  then (b, 1%Z)
  else if negb (_is_active b)
     && (_voltage b >? MAX_VOLTAGE / int_2 + hysteresis b * MAX_VOLTAGE / int_2)
  then (set_active true b, 1%Z)
  else (set_active false b, 0%Z).

Definition turn_on (b : GeneBlock) : GeneBlock := set_voltage MAX_VOLTAGE b.
Definition turn_off (b : GeneBlock) : GeneBlock := set_voltage lit_0_0 b.

(** [x / y] on Python floats raises when the divisor is zero. *)
Definition py_div (x y : F) : result F :=
  if is_zero y then Raise ZeroDivisionError else Ok (x / y).

Definition _charge (b : GeneBlock) : result GeneBlock :=
  match py_div (MAX_VOLTAGE - _voltage b) (time_constant b) with
  | Ok q => Ok (set_voltage (_voltage b + q * DELTA_T) b)
  | Raise e => Raise e
  end.

Definition _discharge (b : GeneBlock) : result GeneBlock :=
  match py_div (_voltage b) (time_constant b) with
  | Ok q => Ok (set_voltage (_voltage b - q * DELTA_T) b)
  | Raise e => Raise e
  end.

Definition update (b : GeneBlock) (ingoing_connections : Z) : result GeneBlock :=
  if (ingoing_connections >=? threshhold b)%Z then _charge b else _discharge b.

(** [n] calls of [is_active] in a row: the block left and the returned
    values, first call first. *)
Fixpoint is_active_calls (n : nat) (b : GeneBlock) : GeneBlock * list Z :=
  match n with
  | O => (b, [])
  | S n' =>
      let '(b1, r) := is_active b in
      let '(b2, rs) := is_active_calls n' b1 in
      (b2, r :: rs)
  end.

(** [n] calls of [update] with the same signal, stopping at an exception. *)
Fixpoint update_calls (n : nat) (s : Z) (b : GeneBlock) : result GeneBlock :=
  match n with
  | O => Ok b
  | S n' =>
      match update b s with
      | Ok b' => update_calls n' s b'
      | Raise e => Raise e
      end
  end.

(** The voltage of the block after [n] calls of [update] with the signal
    [s], if none of them raised. *)
Definition voltage_after (n : nat) (s : Z) (b : GeneBlock) : option F :=
  match update_calls n s b with
  | Ok b' => Some (_voltage b')
  | Raise _ => None
  end.

(** [n] calls of [update] with the signal [s] none of which raises, lowers
    the voltage or leaves it above [MAX_VOLTAGE]; and the dual for
    discharging. *)
Fixpoint charges_within (n : nat) (s : Z) (b : GeneBlock) : bool :=
  match n with
  | O => true
  | S n' =>
      match update b s with
      | Ok b' =>
          if (_voltage b <=? _voltage b') && (_voltage b' <=? MAX_VOLTAGE)
          then charges_within n' s b' else false
      | Raise _ => false
      end
  end.

Fixpoint discharges_within (n : nat) (s : Z) (b : GeneBlock) : bool :=
  match n with
  | O => true
  | S n' =>
      match update b s with
      | Ok b' =>
          if (_voltage b' <=? _voltage b) && (lit_0_0 <=? _voltage b')
          then discharges_within n' s b' else false
      | Raise _ => false
      end
  end.

(** The voltage one [update] writes, and the voltage [n] of them reach
    from [v]. *)
Definition euler_step (b : GeneBlock) (s : Z) (v : F) : F :=
  if (s >=? threshhold b)%Z
  then v + (MAX_VOLTAGE - v) / time_constant b * DELTA_T
  else v - v / time_constant b * DELTA_T.

Fixpoint euler (n : nat) (b : GeneBlock) (s : Z) (v : F) : F :=
  match n with
  | O => v
  | S n' => euler_step b s (euler n' b s v)
  end.

(** *** The comparator in the words of the specification *)

Definition mid : F := MAX_VOLTAGE / int_2.
Definition band (b : GeneBlock) : F := hysteresis b * mid.
Definition activation_threshold (b : GeneBlock) : F := mid + band b.
Definition deactivation_threshold (b : GeneBlock) : F := mid - band b.

(** A latched comparator with the two thresholds given. *)
Definition comparator (lo hi : F) (b : GeneBlock) : GeneBlock * Z :=
  if _is_active b && (_voltage b >? lo) then (b, 1%Z)
  else if negb (_is_active b) && (_voltage b >? hi) then (set_active true b, 1%Z)
  else (set_active false b, 0%Z).

Definition schmitt_trigger (b : GeneBlock) : GeneBlock * Z :=
  comparator (deactivation_threshold b) (activation_threshold b) b.

(** The thresholds as [is_active] computes them. *)
Definition upper (b : GeneBlock) : F :=
  MAX_VOLTAGE / int_2 + hysteresis b * MAX_VOLTAGE / int_2.
Definition lower (b : GeneBlock) : F :=
  MAX_VOLTAGE / int_2 - hysteresis b * MAX_VOLTAGE / int_2.

End GeneBlock.

Arguments GeneBlock F : clear implicits.

(** [GeneBlock()] with the defaults of the constructor; [0.8] is the
    binary64 number nearest to it. *)
Definition default_GeneBlock : GeneBlock float :=
  new_GeneBlock 0x1.999999999999ap-1%float 2 4%float "".

(** ** The object store

    A reference is the identity of a Python object; two references are the
    same object exactly when they are equal. *)

Definition ref : Type := nat.

Section Store.
Context {F : Type} `{Number F}.

Definition store : Type := ref -> GeneBlock F.

Definition store_set (r : ref) (b : GeneBlock F) (σ : store) : store :=
  fun r' => if decide (r' = r) then b else σ r'.

(** [block.is_active()] and [block.update(s)] on the object [r]. *)
Definition call_is_active (r : ref) : St store Z :=
  fun σ => let '(b', v) := is_active (σ r) in (store_set r b' σ, Ok v).

Definition call_update (r : ref) (s : Z) : St store unit :=
  fun σ =>
    match update (σ r) s with
    | Ok b' => (store_set r b' σ, Ok tt)
    | Raise e => (σ, Raise e)
    end.
End Store.

Arguments store F : clear implicits.

(** ** numpy's [int64]

    [np.zeros(..., dtype=int)] makes an array of 64-bit signed integers.
    Arithmetic on such arrays wraps around in two's complement. *)

Definition int64_min : Z := (- 2 ^ 63)%Z.
Definition int64_max : Z := (2 ^ 63 - 1)%Z.

Definition in_int64 (z : Z) : Prop := (int64_min <= z <= int64_max)%Z.

(** The [int64] with the bits of [z]. *)
Definition wrap64 (z : Z) : Z := ((z + 2 ^ 63) mod 2 ^ 64 - 2 ^ 63)%Z.

Definition int64_add (a b : Z) : Z := wrap64 (a + b).
Definition int64_mul (a b : Z) : Z := wrap64 (a * b).

(** ** Two-dimensional integer arrays

    [rows] holds the rows; [ncols] is kept beside them because an array with
    no row still has a second dimension. *)

Record ndarray : Type := { ncols : nat; rows : list (list Z) }.

Definition nrows (a : ndarray) : nat := length (rows a).
Definition shape (a : ndarray) : nat * nat := (nrows a, ncols a).

(** Every row has [ncols] entries. *)
Definition rectangular (a : ndarray) : Prop :=
  Forall (fun row => length row = ncols a) (rows a).

(** [a[i, j]] read, [None] out of range. *)
Definition entry (a : ndarray) (i j : nat) : option Z :=
  rows a !! i ≫= fun row => row !! j.

(** [np.zeros((r, c), dtype=int)] *)
Definition np_zeros (r c : nat) : ndarray :=
  {| ncols := c; rows := replicate r (replicate c 0%Z) |}.

(** [dst[:-1, :-1] = src] for [src] one row and one column smaller than
    [dst], the only use in [add_block]: row [i] of [src] overwrites the
    leading entries of row [i] of [dst]. *)
Definition paste_row (dst src : list Z) : list Z := src ++ drop (length src) dst.

Fixpoint paste_rows (dst src : list (list Z)) : list (list Z) :=
  match dst, src with
  | d :: dst', s :: src' => paste_row d s :: paste_rows dst' src'
  | _, _ => dst
  end.

Definition assign_top_left (dst src : ndarray) : ndarray :=
  {| ncols := ncols dst; rows := paste_rows (rows dst) (rows src) |}.

(** [np.delete(a, idx, axis)] for a non-negative [idx]. *)
Definition np_delete (a : ndarray) (idx : nat) (axis : nat) : result ndarray :=
  match axis with
  | O =>
      if decide (idx < nrows a) then
        Ok {| ncols := ncols a; rows := delete idx (rows a) |}
      else Raise IndexError
  | _ =>
      if decide (idx < ncols a) then
        Ok {| ncols := ncols a - 1; rows := delete idx <$> rows a |}
      else Raise IndexError
  end.

(** Every entry is an [int64]. *)
Definition int64_matrix (a : ndarray) : Prop :=
  Forall (Forall in_int64) (rows a).

(** [a[i, j] = value] for non-negative [i], [j] and a Python int [value]:
    the index is checked, then the value is converted to [int64]. *)
Definition np_setitem (a : ndarray) (i j : nat) (value : Z) : result ndarray :=
  if decide (i < nrows a ∧ j < ncols a) then
    if decide (in_int64 value) then
      Ok {| ncols := ncols a;
            rows := alter (fun row => <[j := value]> row) i (rows a) |}
    else Raise OverflowError
  else Raise IndexError.

(** [np.matmul(a, x)] for a vector [x]: the products and the sum of a row
    are computed in [int64]. *)
Definition dot (row x : list Z) : Z :=
  foldr int64_add 0%Z (zip_with int64_mul row x).

(** The sum of products as an integer, without wrap-around. *)
Definition exact_dot (row x : list Z) : Z :=
  foldr Z.add 0%Z (zip_with Z.mul row x).

(** The sum of the magnitudes of a row. *)
Definition abs_sum (row : list Z) : Z := foldr (fun a s => Z.abs a + s)%Z 0%Z row.

Definition np_matmul (a : ndarray) (x : list Z) : result (list Z) :=
  if decide (ncols a = length x) then Ok ((fun row => dot row x) <$> rows a)
  else Raise ValueError.

(** ** Python lists *)

(** [l.index(x)] *)
Fixpoint list_index (x : ref) (l : list ref) : option nat :=
  match l with
  | [] => None
  | y :: l' => if decide (y = x) then Some O else S <$> list_index x l'
  end.

Definition py_index (x : ref) (l : list ref) : result nat :=
  match list_index x l with
  | Some i => Ok i
  | None => Raise ValueError
  end.

(** [l[i]] for a Python int [i]: negative indices count from the end. *)
Definition py_getitem {A : Type} (l : list A) (i : Z) : result A :=
  let n := Z.of_nat (length l) in
  let j := if (i <? 0)%Z then (i + n)%Z else i in
  if ((0 <=? j) && (j <? n))%Z then
    match l !! Z.to_nat j with
    | Some x => Ok x
    | None => Raise IndexError
    end
  else Raise IndexError.

(** ** board.py *)

Record Board : Type := {
  _blocks : list ref;
  _labelled_blocks : gmap string ref;
  connections : ndarray
}.

Definition with_blocks (l : list ref) (bd : Board) : Board :=
  {| _blocks := l; _labelled_blocks := _labelled_blocks bd;
     connections := connections bd |}.
Definition with_labelled_blocks (m : gmap string ref) (bd : Board) : Board :=
  {| _blocks := _blocks bd; _labelled_blocks := m;
     connections := connections bd |}.
Definition with_connections (c : ndarray) (bd : Board) : Board :=
  {| _blocks := _blocks bd; _labelled_blocks := _labelled_blocks bd;
     connections := c |}.

(** [Board.__init__] *)
Definition new_Board : Board :=
  {| _blocks := []; _labelled_blocks := ∅; connections := np_zeros 0 0 |}.

Definition not_found (lbl : string) : string :=
  "Could not locate block with label " +:+ lbl +:+ ".".

Definition _get_block_by_label (bd : Board) (lbl : string) : result ref :=
  match _labelled_blocks bd !! lbl with
  | Some block => Ok block
  | None => Raise (KeyError (not_found lbl))
  end.

(** The argument of [__getitem__] by its Python type. *)
Inductive item : Type :=
| ItemStr (s : string)
| ItemInt (i : Z)
| ItemBlock (b : ref).

Definition getitem (bd : Board) (it : item) : result ref :=
  match it with
  | ItemStr s => _get_block_by_label bd s
  | ItemInt i => py_getitem (_blocks bd) i
  | ItemBlock b =>
      match py_index b (_blocks bd) with
      | Ok block_idx => py_getitem (_blocks bd) (Z.of_nat block_idx)
      | Raise e => Raise e
      end
  end.

Definition get_blocks (bd : Board) : list ref := _blocks bd.

(** A block argument given as a label ([str]) or as the block object. *)
Inductive block_or_label : Type :=
| ByLabel (lbl : string)
| ByBlock (b : ref).

Section Board.
Context {F : Type} `{Number F}.

Definition get_block_states (bd : Board) : St (store F) (list Z) :=
  mapM call_is_active (_blocks bd).

Definition get_block_voltages (bd : Board) (σ : store F) : list F :=
  (fun b => get_voltage (σ b)) <$> _blocks bd.

(** [add_block] reads the label of the block object in the store [σ]. *)
Definition add_block (σ : store F) (block : ref) : St Board unit :=
  bd ← get_state;
  let new_connections :=
    np_zeros (nrows (connections bd) + 1) (ncols (connections bd) + 1) in
  let new_connections := assign_top_left new_connections (connections bd) in
  modify (with_blocks (_blocks bd ++ [block])) ;;
  modify (with_connections new_connections) ;;
  let block_label := get_label (σ block) in
  if bool_decide (block_label ≠ "") then
    modify (with_labelled_blocks (<[block_label := block]> (_labelled_blocks bd)))
  else mret tt.

Definition add_blocks (σ : store F) (blocks : list ref) : St Board unit :=
  for_each blocks (add_block σ).

(** [advance] leaves the board as it is and mutates the blocks. *)
Definition advance (bd : Board) : St (store F) unit :=
  block_states ← mapM call_is_active (_blocks bd);
  ingoing_connections ← lift (np_matmul (connections bd) block_states);
  for_each (zip (_blocks bd) ingoing_connections)
    (fun '(block, ingoing_connection) => call_update block ingoing_connection).
End Board.

Definition remove_block (arg : block_or_label) : St Board unit :=
  block ← match arg with
          | ByLabel lbl =>
              bd ← get_state;
              block ← lift (_get_block_by_label bd lbl);
              modify (with_labelled_blocks (delete lbl (_labelled_blocks bd))) ;;
              mret block
          | ByBlock b => mret b
          end;
  bd ← get_state;
  block_idx ← lift (py_index block (_blocks bd));
  modify (with_blocks (delete block_idx (_blocks bd))) ;;
  for_each [0; 1] (fun axis =>
    bd ← get_state;
    c ← lift (np_delete (connections bd) block_idx axis);
    modify (with_connections c)).

Definition resolve (bd : Board) (arg : block_or_label) : result ref :=
  match arg with
  | ByLabel lbl => _get_block_by_label bd lbl
  | ByBlock b => Ok b
  end.

Definition add_connection (source target : block_or_label) (value : Z)
    : St Board unit :=
  bd ← get_state;
  source_block ← lift (resolve bd source);
  target_block ← lift (resolve bd target);
  source_idx ← lift (py_index source_block (_blocks bd));
  target_idx ← lift (py_index target_block (_blocks bd));
  c ← lift (np_setitem (connections bd) target_idx source_idx value);
  modify (with_connections c).

Definition remove_connection (source_block target_block : block_or_label)
    : St Board unit :=
  add_connection source_block target_block 0.

Definition set_connections (c : ndarray) : St Board unit :=
  modify (with_connections c).

(** ** Notions used in the statements *)

Section Sampling.
Context {F : Type} `{Number F}.

(** The store and the values [is_active] leaves when called on the blocks of
    [l] in order. *)
Fixpoint latch_all (l : list ref) (σ : store F) : store F :=
  match l with
  | [] => σ
  | r :: l' => latch_all l' (store_set r (fst (is_active (σ r))) σ)
  end.

Fixpoint sampled (l : list ref) (σ : store F) : list Z :=
  match l with
  | [] => []
  | r :: l' =>
      snd (is_active (σ r)) :: sampled l' (store_set r (fst (is_active (σ r))) σ)
  end.

(** The activation of every block of [l] as [is_active] computes it from
    the store [σ] alone. *)
Definition snapshot (σ : store F) (l : list ref) : list Z :=
  (fun r => snd (is_active (σ r))) <$> l.

End Sampling.

(** [remove_block] once the block is resolved. *)
Definition remove_resolved (block : ref) (bd : Board) : Board * result unit :=
  match py_index block (_blocks bd) with
  | Raise e => (bd, Raise e)
  | Ok block_idx =>
      let bd1 := with_blocks (delete block_idx (_blocks bd)) bd in
      match np_delete (connections bd1) block_idx 0 with
      | Raise e => (bd1, Raise e)
      | Ok c0 =>
          match np_delete c0 block_idx 1 with
          | Raise e => (with_connections c0 bd1, Raise e)
          | Ok c1 => (with_connections c1 (with_connections c0 bd1), Ok tt)
          end
      end
  end.

(** The index [i] of the board after the block at [k] is removed, as an index
    of the board before. *)
Definition skip (k i : nat) : nat := if decide (i < k) then i else S i.

(** The connection matrix is square, of the dimension of the block list. *)
Definition square (bd : Board) : Prop :=
  rectangular (connections bd)
  /\ shape (connections bd) = (length (_blocks bd), length (_blocks bd)).

(** Both [np.delete] calls of [remove_block] on a square matrix. *)
Definition without (k : nat) (a : ndarray) : ndarray :=
  {| ncols := ncols a - 1; rows := delete k <$> delete k (rows a) |}.


(** The label map is consistent with the block list: every entry is a block
    on the board, under the label the block has in the store [σ]. *)
Definition labels_consistent {F : Type} (σ : store F) (bd : Board) : Prop :=
  forall (lbl : string) (r : ref),
    _labelled_blocks bd !! lbl = Some r ->
    r ∈ _blocks bd /\ get_label (σ r) = lbl.

Section Calls.
Context {F : Type} `{Number F}.

(** A call that changes the structure of a board; [add_block] comes with the
    object store it reads the label from. *)
Inductive call : Type :=
| AddBlock (σ : store F) (block : ref)
| RemoveBlock (arg : block_or_label)
| AddConnection (source target : block_or_label) (value : Z).

Definition do_call (c : call) : St Board unit :=
  match c with
  | AddBlock σ block => add_block σ block
  | RemoveBlock arg => remove_block arg
  | AddConnection source target value => add_connection source target value
  end.

(** The board after a sequence of calls, whether or not some of them raise. *)
Definition run (calls : list call) (bd : Board) : Board :=
  foldl (fun bd c => fst (do_call c bd)) bd calls.
End Calls.


(** ** Boards of the scenarios *)

(** Two blocks with threshold 1 that excite each other, both switched on. *)
Definition mutual_board : Board :=
  {| _blocks := [0; 1]; _labelled_blocks := ∅;
     connections := {| ncols := 2; rows := [[0; 1]; [1; 0]]%Z |} |}.

Definition mutual_store : store float :=
  fun _ => turn_on (new_GeneBlock 0.5%float 1 4%float "").

(** One block [X] with threshold 1, time constant 4.0 and hysteresis 0.8. *)
Definition X_block : GeneBlock float :=
  new_GeneBlock 0x1.999999999999ap-1%float 1 4%float "X".

Definition X_board : Board := fst (add_block (fun _ => X_block) 0 new_Board).

(** A relay: block [0] is connected to block [1].  The driver [0] has no
    hysteresis, the time constant [2 ^ -9] and stands at 9 V; the driven
    block [1] stands at 0 V. *)
Definition relay_board : Board :=
  {| _blocks := [0; 1]; _labelled_blocks := ∅;
     connections := {| ncols := 2; rows := [[0; 0]; [1; 0]]%Z |} |}.

Definition relay_store : store float :=
  fun r =>
    match r with
    | O => turn_on (new_GeneBlock 0%float 1 0.001953125%float "")
    | _ => new_GeneBlock 0.5%float 1 4%float ""
    end.

(** Three blocks with nine different connection values. *)
Definition grid_board : Board :=
  {| _blocks := [0; 1; 2]; _labelled_blocks := ∅;
     connections :=
       {| ncols := 3; rows := [[1; 2; 3]; [4; 5; 6]; [7; 8; 9]]%Z |} |}.

(** Three blocks with threshold 1, all switched on; the first two are
    connected to the third with the weight [2 ^ 62] each. *)
Definition heavy_store : store float :=
  fun _ => turn_on (new_GeneBlock 0.5%float 1 4%float "").

Definition heavy_board : Board :=
  run [ AddBlock heavy_store 0; AddBlock heavy_store 1; AddBlock heavy_store 2;
        AddConnection (ByBlock 0) (ByBlock 2) (2 ^ 62);
        AddConnection (ByBlock 1) (ByBlock 2) (2 ^ 62) ] new_Board.

(** ** Further notions used in the statements *)

(** The calls that keep the label map consistent with the labels of the
    store [σ]: [add_block] reading its label from [σ], [remove_block] by
    label, [add_connection]. *)
Definition by_label_only {F : Type} `{Number F} (σ : store F) (c : @call F)
    : Prop :=
  match c with
  | AddBlock σ' _ => σ' = σ
  | RemoveBlock (ByLabel _) => True
  | RemoveBlock (ByBlock _) => False
  | AddConnection _ _ _ => True
  end.

(** [for _ in range(n): board.advance()] *)
Definition advance_steps {F : Type} `{Number F} (n : nat) (bd : Board)
    : St (store F) unit :=
  for_each (seq 0 n) (fun _ => advance bd).

(** A binary64 time constant [update] can divide by: not zero, not NaN. *)
Definition proper_time_constant (b : GeneBlock float) : Prop :=
  PrimFloat.is_nan (time_constant b) = false
  /\ is_zero (time_constant b) = false.

(** A block at rest: no voltage, latch clear, an activation threshold that is
    not negative, and a threshold no signal of an inactive board reaches. *)
Definition at_rest (b : GeneBlock float) : Prop :=
  _voltage b = 0%float /\ _is_active b = false
  /\ gtb 0%float (upper b) = false
  /\ (1 <= threshhold b)%Z
  /\ proper_time_constant b.

(** ** yeast_cell_cycle.py *)

(** The blocks of [main], in the order of the list [blocks]; [0.8] and [0.1]
    are the binary64 numbers nearest to them. *)
Definition yeast_blocks : list (GeneBlock float) :=
  [ new_GeneBlock 0x1.999999999999ap-1%float 2 4%float "YOX1";
    new_GeneBlock 0x1.999999999999ap-1%float 1 4%float "YHP1";
    new_GeneBlock 0x1.999999999999ap-1%float 2 4%float "HCM1";
    new_GeneBlock 0x1.999999999999ap-1%float 1 4%float "CLN3";
    new_GeneBlock 0x1.999999999999ap-1%float 1 4%float "SBF";
    new_GeneBlock 0x1.999999999999ap-1%float 1 4%float "SFF";
    new_GeneBlock 0x1.999999999999ap-1%float 1 4%float "MBF";
    new_GeneBlock 0x1.999999999999ap-1%float 1 4%float "ACE2";
    new_GeneBlock 0x1.999999999999ap-1%float 1 4%float "SWI5";
    new_GeneBlock 0x1.999999999999ap-4%float 2 0x1.999999999999ap-4%float
      "YOX1 & YHP1";
    new_GeneBlock 0x1.999999999999ap-4%float 2 0x1.999999999999ap-4%float
      "SWI5 & ACE2";
    new_GeneBlock 0x1.999999999999ap-4%float 1 0x1.999999999999ap-4%float
      "CLN3 | MBF" ].

(** The object store after the list is built: the block at position [r] of
    the list is the object [r]. *)
Definition yeast_store : store float :=
  fun r => default default_GeneBlock (yeast_blocks !! r).

(** [board = Board(); board.add_blocks(blocks)] and the [add_connection]
    calls of [main], in order. *)
Definition yeast_setup : St Board unit :=
  add_blocks yeast_store (seq 0 (length yeast_blocks)) ;;
  add_connection (ByLabel "CLN3") (ByLabel "MBF") 1 ;;
  add_connection (ByLabel "SFF") (ByLabel "ACE2") 1 ;;
  add_connection (ByLabel "SFF") (ByLabel "SWI5") 1 ;;
  add_connection (ByLabel "MBF") (ByLabel "YOX1") 1 ;;
  add_connection (ByLabel "SBF") (ByLabel "YOX1") 1 ;;
  add_connection (ByLabel "MBF") (ByLabel "YHP1") 1 ;;
  add_connection (ByLabel "SBF") (ByLabel "YHP1") 1 ;;
  add_connection (ByLabel "MBF") (ByLabel "HCM1") 1 ;;
  add_connection (ByLabel "SBF") (ByLabel "HCM1") 1 ;;
  add_connection (ByLabel "SWI5") (ByLabel "SWI5 & ACE2") 1 ;;
  add_connection (ByLabel "ACE2") (ByLabel "SWI5 & ACE2") 1 ;;
  add_connection (ByLabel "SWI5 & ACE2") (ByLabel "CLN3") 1 ;;
  add_connection (ByLabel "YOX1") (ByLabel "YOX1 & YHP1") 1 ;;
  add_connection (ByLabel "YHP1") (ByLabel "YOX1 & YHP1") 1 ;;
  add_connection (ByLabel "SWI5 & ACE2") (ByLabel "CLN3") 1 ;;
  add_connection (ByLabel "YOX1 & YHP1") (ByLabel "CLN3") (-1) ;;
  add_connection (ByLabel "CLN3") (ByLabel "CLN3 | MBF") 1 ;;
  add_connection (ByLabel "MBF") (ByLabel "CLN3 | MBF") 1 ;;
  add_connection (ByLabel "CLN3 | MBF") (ByLabel "SBF") 1 ;;
  add_connection (ByLabel "YOX1 & YHP1") (ByLabel "SBF") (-1) ;;
  add_connection (ByLabel "SBF") (ByLabel "SFF") 1 ;;
  add_connection (ByLabel "HCM1") (ByLabel "SFF") 1.

Definition yeast_board : Board := fst (yeast_setup new_Board).

(** The fields no method of the board writes. *)
Definition same_parameters {F : Type} (b' b : GeneBlock F) : Prop :=
  hysteresis b' = hysteresis b /\ threshhold b' = threshhold b
  /\ time_constant b' = time_constant b /\ label b' = label b.

(** The time constant of the object [r] is one [update] can divide by. *)
Definition divides {F : Type} `{Number F} (σ : store F) (r : ref) : bool :=
  negb (is_zero (time_constant (σ r))).

(** [row[:] = values] for a one-dimensional [values], as in
    [activities[timestep] = ...]: the lengths agree, or a single value is
    broadcast, or numpy raises [ValueError]. *)
Definition np_assign_row (w : nat) (values : list Z) : result (list Z) :=
  if decide (length values = w) then Ok values
  else if decide (length values = 1) then
    Ok (replicate w (default 0%Z (head values)))
  else Raise ValueError.

Section Simulation.
Context {F : Type} `{Number F}.

(** [block.turn_on()] on the object [r]. *)
Definition call_turn_on (r : ref) : St (store F) unit :=
  modify (fun σ => store_set r (turn_on (σ r)) σ).

(** [for iteration in range(n): board[lbl].turn_on(); board.advance()] *)
Definition supply (bd : Board) (lbl : string) (n : nat) : St (store F) unit :=
  for_each (seq 0 n) (fun _ =>
    block ← lift (getitem bd (ItemStr lbl));
    call_turn_on block ;;
    advance bd).

(** The measuring loop of [main]; the value is the array [activities] of
    width [w] after the loop, row by row. *)
Definition measure (bd : Board) (w n : nat) : St (store F) (list (list Z)) :=
  mapM (fun _ =>
    advance bd ;;
    states ← get_block_states bd;
    lift (np_assign_row w (take (length states - 3) states))) (seq 0 n).

(** The two loops of [main], one after the other. *)
Definition simulate (bd : Board) (lbl : string) (n_supply n_measure : nat)
    : St (store F) (list (list Z)) :=
  supply bd lbl n_supply ;;
  measure bd 9 n_measure.
End Simulation.


(** * Properties *)

(** ** Order on the two carriers *)

Lemma SFleb_SFltb_trans (a b c : spec_float) :
  SFleb a b = true -> SFltb b c = true -> SFltb a c = true.
Proof.
  unfold SFleb, SFltb, SFcompare.
  destruct a as [sa|sa| |sa ma ea], b as [sb|sb| |sb mb eb],
           c as [sc|sc| |sc mc ec];
    repeat match goal with
      | |- context [match ?s with true => _ | false => _ end] =>
          is_var s; destruct s
      end;
    try (intros; congruence);
    change (Pos.compare_cont Eq) with Pos.compare;
    repeat match goal with
      | |- context [Z.compare ?x ?y] => destruct (Z.compare_spec x y); subst
      | |- context [Pos.compare ?x ?y] => destruct (Pos.compare_spec x y); subst
      end;
    simpl; try (intros; congruence); try lia.
Qed.

#[global] Instance float_NumberOrder : NumberOrder float.
Proof.
  constructor. intros v lo hi Hv Hle. cbn in *.
  rewrite ltb_spec in *. rewrite leb_spec in Hle.
  eapply SFleb_SFltb_trans; eauto.
Qed.

Lemma Q_gtb_lt (x y : Q) : gtb x y = true <-> (y < x)%Q.
Proof.
  cbn. rewrite negb_true_iff, <- not_true_iff_false, Qle_bool_iff.
  split; [apply Qnot_le_lt | apply Qlt_not_le].
Qed.

Lemma Q_leb_le (x y : Q) : leb x y = true <-> (x <= y)%Q.
Proof. cbn. apply Qle_bool_iff. Qed.

#[global] Instance Q_NumberOrder : NumberOrder Q.
Proof.
  constructor. intros v lo hi Hv Hle.
  apply Q_gtb_lt in Hv. apply Q_leb_le in Hle. apply Q_gtb_lt.
  eapply Qle_lt_trans; eauto.
Qed.

Lemma Q_gtb_proper (v x y : Q) : (x == y)%Q -> gtb v x = gtb v y.
Proof. intros E. cbn. now rewrite E. Qed.

(** ** The comparator *)

Section Comparator.
Context {F : Type} `{Number F}.

Lemma is_active_comparator (b : GeneBlock F) :
  is_active b = comparator (lower b) (upper b) b.
Proof. reflexivity. Qed.

Lemma comparator_cases (lo hi : F) (b : GeneBlock F) :
  comparator lo hi b = (b, 1%Z) /\ _is_active b = true
  \/ comparator lo hi b = (set_active true b, 1%Z)
  \/ comparator lo hi b = (set_active false b, 0%Z).
Proof.
  unfold comparator. destruct (_is_active b) eqn:Ea; cbn.
  - destruct (gtb (_voltage b) lo); auto.
  - destruct (gtb (_voltage b) hi); auto.
Qed.

Lemma is_active_fields (b : GeneBlock F) :
  fst (is_active b) = set_active (_is_active (fst (is_active b))) b.
Proof.
  rewrite is_active_comparator.
  destruct (comparator_cases (lower b) (upper b) b) as [[-> Ea]|[->| ->]];
    cbn; try reflexivity.
  now destruct b.
Qed.

Lemma is_active_returns_latch (b : GeneBlock F) :
  snd (is_active b) = Z.b2z (_is_active (fst (is_active b))).
Proof.
  rewrite is_active_comparator.
  destruct (comparator_cases (lower b) (upper b) b) as [[-> Ea]|[->| ->]];
    cbn; try reflexivity.
  now rewrite Ea.
Qed.
End Comparator.

Lemma Q_lower (b : GeneBlock Q) : (lower b == deactivation_threshold b)%Q.
Proof. unfold lower, deactivation_threshold, band, mid. cbn. field. Qed.

Lemma Q_upper (b : GeneBlock Q) : (upper b == activation_threshold b)%Q.
Proof. unfold upper, activation_threshold, band, mid. cbn. field. Qed.

(** C3 (as amended).  [is_active] is the hysteretic comparator of the
    specification: read in exact arithmetic, it is [schmitt_trigger] with
    [mid = MAX_VOLTAGE/2] and [band = hysteresis * mid]; with hysteresis zero
    both thresholds are [mid] and the returned value is the plain comparison
    of the voltage with [mid], whatever the latch.  In binary64 it is the same
    latched comparator on the thresholds as the code associates them,
    [hysteresis * MAX_VOLTAGE / 2]; it is [schmitt_trigger] whenever that
    product equals [hysteresis * (MAX_VOLTAGE / 2)], as it does for the
    default hysteresis 0.8 and for the 0.1 of the script; and with
    hysteresis zero both thresholds are 4.5. *)
Theorem is_active_schmitt_trigger :
  (forall b : GeneBlock Q, is_active b = schmitt_trigger b)
  /\ (forall b : GeneBlock Q, (hysteresis b == 0)%Q ->
        (deactivation_threshold b == mid)%Q
        /\ (activation_threshold b == mid)%Q
        /\ snd (is_active b) = if gtb (_voltage b) mid then 1%Z else 0%Z)
  /\ (forall b : GeneBlock float,
        is_active b = comparator (lower b) (upper b) b)
  /\ (forall b : GeneBlock float,
        (hysteresis b * MAX_VOLTAGE / int_2 = hysteresis b * (MAX_VOLTAGE / int_2))%num ->
        is_active b = schmitt_trigger b)
  /\ (forall b : GeneBlock float,
        hysteresis b = 0x1.999999999999ap-1%float
        \/ hysteresis b = 0x1.999999999999ap-4%float ->
        (hysteresis b * MAX_VOLTAGE / int_2
         = hysteresis b * (MAX_VOLTAGE / int_2))%num)
  /\ (forall b : GeneBlock float, hysteresis b = 0%float ->
        lower b = 4.5%float /\ upper b = 4.5%float
        /\ snd (is_active b)
           = if gtb (_voltage b) 4.5%float then 1%Z else 0%Z).
Proof.
  split; [|split; [|split; [|split; [|split]]]].
  - intros b. rewrite is_active_comparator. unfold schmitt_trigger, comparator.
    now rewrite (Q_gtb_proper _ _ _ (Q_lower b)), (Q_gtb_proper _ _ _ (Q_upper b)).
  - intros b Hh.
    assert (Hlo : (deactivation_threshold b == mid)%Q).
    { unfold deactivation_threshold, band, mid. cbn. rewrite Hh. field. }
    assert (Hhi : (activation_threshold b == mid)%Q).
    { unfold activation_threshold, band, mid. cbn. rewrite Hh. field. }
    split; [exact Hlo|split; [exact Hhi|]].
    rewrite is_active_comparator. unfold comparator.
    rewrite (Q_gtb_proper _ _ _ (Q_lower b)), (Q_gtb_proper _ _ _ (Q_upper b)).
    rewrite (Q_gtb_proper _ _ _ Hlo), (Q_gtb_proper _ _ _ Hhi).
    destruct (_is_active b), (gtb (_voltage b) mid); reflexivity.
  - intros b. apply is_active_comparator.
  - intros b Hb. rewrite is_active_comparator.
    unfold schmitt_trigger, deactivation_threshold, activation_threshold,
      band, mid, lower, upper.
    now rewrite Hb.
  - intros b [-> | ->]; reflexivity.
  - intros b Hh.
    assert (Hlo : lower b = 4.5%float) by (unfold lower; rewrite Hh; reflexivity).
    assert (Hhi : upper b = 4.5%float) by (unfold upper; rewrite Hh; reflexivity).
    split; [exact Hlo|split; [exact Hhi|]].
    rewrite is_active_comparator, Hlo, Hhi. unfold comparator.
    destruct (_is_active b), (gtb (_voltage b) 4.5%float); reflexivity.
Qed.

(** The default block: its thresholds are the ones of the specification. *)
Lemma is_active_schmitt_trigger_witness :
  is_active default_GeneBlock = schmitt_trigger default_GeneBlock.
Proof.
  destruct is_active_schmitt_trigger as (_ & _ & _ & Heq & Hprod & _).
  apply Heq, Hprod. left. reflexivity.
Defined.

(** C3, counterexample.  With [hysteresis=3e307] the product
    [hysteresis * MAX_VOLTAGE] overflows, so the code's activation threshold
    is infinite, while [mid + hysteresis * mid] is about 1.35e308.  The
    block [GeneBlock(hysteresis=3e307, threshhold=0, time_constant=1e-320)]
    holds an infinite voltage after one [update(0)]: [is_active] answers 0
    where the comparator of the specification answers 1. *)
Lemma is_active_differs_when_product_overflows :
  exists b1 : GeneBlock float,
    update (new_GeneBlock 0x1.55c576d815726p+1021%float 0
              0x0.00000000007e8p-1022%float "") 0 = Ok b1
    /\ upper b1 = infinity
    /\ activation_threshold b1 = 0x1.807e25b31820bp+1023%float
    /\ snd (is_active b1) = 0%Z
    /\ snd (schmitt_trigger b1) = 1%Z.
Proof.
  eexists. split; [reflexivity|].
  split; [vm_compute; reflexivity|]. split; [vm_compute; reflexivity|].
  split; vm_compute; reflexivity.
Qed.

(** ** Repeated calls of [is_active] *)

Section Idempotence.
Context {F : Type} `{NumberOrder F}.

Lemma comparator_twice (lo hi : F) (b : GeneBlock F) :
  leb lo hi = true ->
  comparator lo hi (fst (comparator lo hi b)) = comparator lo hi b.
Proof.
  intros Hle. unfold comparator.
  destruct (_is_active b) eqn:Ea, (gtb (_voltage b) lo) eqn:Elo,
           (gtb (_voltage b) hi) eqn:Ehi; cbn; rewrite ?Ea, ?Elo, ?Ehi; cbn;
    try reflexivity.
  all: pose proof (gtb_leb_trans _ _ _ Ehi Hle); congruence.
Qed.

Lemma is_active_twice (b : GeneBlock F) :
  leb (lower b) (upper b) = true ->
  is_active (fst (is_active b)) = is_active b.
Proof.
  intros Hle. rewrite !is_active_comparator.
  replace (lower (fst (comparator (lower b) (upper b) b))) with (lower b).
  2:{ destruct (comparator_cases (lower b) (upper b) b) as [[-> _]|[->| ->]];
        reflexivity. }
  replace (upper (fst (comparator (lower b) (upper b) b))) with (upper b).
  2:{ destruct (comparator_cases (lower b) (upper b) b) as [[-> _]|[->| ->]];
        reflexivity. }
  now apply comparator_twice.
Qed.

(** A block that [is_active] leaves as it is keeps answering the same. *)
Lemma is_active_calls_fixed (n : nat) (c : GeneBlock F) (r : Z) :
  is_active c = (c, r) -> is_active_calls n c = (c, replicate n r).
Proof.
  intros E. induction n as [|n IH]; [reflexivity|].
  cbn [is_active_calls replicate]. now rewrite E, IH.
Qed.
End Idempotence.

(** In exact arithmetic a hysteresis that is not negative orders the
    thresholds. *)
Lemma Q_thresholds_ordered (b : GeneBlock Q) :
  (0 <= hysteresis b)%Q -> leb (lower b) (upper b) = true.
Proof.
  intros Hh. apply Q_leb_le. rewrite Q_lower, Q_upper.
  unfold deactivation_threshold, activation_threshold, band, mid. cbn.
  assert (E : (9 / 2 == 9 # 2)%Q) by reflexivity. rewrite E.
  assert (0 <= hysteresis b * (9 # 2))%Q by (apply Qmult_le_0_compat; lra).
  lra.
Qed.

(** C4 (as amended).  For a block whose deactivation threshold, as computed,
    does not exceed its activation threshold -- in exact arithmetic: whose
    hysteresis is not negative -- [n + 1] calls of [is_active] in a row all
    return the value of the first call and leave the block as the first call
    left it: the latch does not flip after the first call. *)
Theorem is_active_idempotent {F : Type} `{NumberOrder F} (b : GeneBlock F)
    (n : nat) :
  leb (lower b) (upper b) = true ->
  is_active_calls (S n) b
  = (fst (is_active b), replicate (S n) (snd (is_active b))).
Proof.
  intros Hle. pose proof (is_active_twice b Hle) as Htwice.
  cbn [is_active_calls replicate].
  destruct (is_active b) as [b1 r]. cbn [fst snd] in *.
  now rewrite (is_active_calls_fixed n b1 r Htwice).
Qed.

Lemma is_active_idempotent_witness :
  leb (lower (turn_on (new_GeneBlock 0.5%float 2 4%float "")))
      (upper (turn_on (new_GeneBlock 0.5%float 2 4%float ""))) = true
  /\ is_active_calls 3 (turn_on (new_GeneBlock 0.5%float 2 4%float ""))
     = (set_active true (turn_on (new_GeneBlock 0.5%float 2 4%float "")),
        [1%Z; 1%Z; 1%Z]).
Proof.
  split; [reflexivity|].
  exact (is_active_idempotent (turn_on (new_GeneBlock 0.5%float 2 4%float ""))
           2 eq_refl).
Defined.

(** C4, counterexample.  A block built with [hysteresis=-0.5],
    [threshhold=0], [time_constant=0.001953125] and charged once holds
    4.608 V, between the inverted thresholds 2.25 and 6.75: two calls of
    [is_active] in a row return 1 and then 0. *)
Lemma is_active_flips_with_negative_hysteresis :
  exists b1 : GeneBlock float,
    update (new_GeneBlock (-0.5)%float 0 0.001953125%float "") 0 = Ok b1
    /\ snd (is_active_calls 2 b1) = [1%Z; 0%Z].
Proof. eexists. split; reflexivity. Qed.

(** ** [update] *)

(** C5.  [update(s)] charges when [s >= threshhold] and discharges
    otherwise, by the two Euler steps with [MAX_VOLTAGE = 9.0] and
    [DELTA_T = 1e-3], and changes no field but the voltage; the division
    raises [ZeroDivisionError], leaving the block as it was, exactly when the
    time constant is zero. *)
Theorem update_changes_voltage_only {F : Type} `{Number F} (b : GeneBlock F)
    (s : Z) :
  (if is_zero (time_constant b) then update b s = Raise ZeroDivisionError
   else
     exists b' : GeneBlock F,
       update b s = Ok b'
       /\ _voltage b'
          = (if (s >=? threshhold b)%Z
             then _voltage b + (MAX_VOLTAGE - _voltage b) / time_constant b * DELTA_T
             else _voltage b - _voltage b / time_constant b * DELTA_T)%num
       /\ _is_active b' = _is_active b
       /\ hysteresis b' = hysteresis b
       /\ threshhold b' = threshhold b
       /\ time_constant b' = time_constant b
       /\ label b' = label b)
  /\ (MAX_VOLTAGE : float) = 9%float
  /\ (DELTA_T : float) = (1 / 1000)%float
  /\ (MAX_VOLTAGE : Q) = 9%Q
  /\ (DELTA_T : Q) = (1 # 1000)%Q.
Proof.
  split; [|repeat split].
  unfold update, _charge, _discharge, py_div.
  destruct (is_zero (time_constant b)).
  - now destruct (s >=? threshhold b)%Z.
  - destruct (s >=? threshhold b)%Z; eexists; repeat split.
Qed.

(** ** The Euler steps *)

Section Euler.
Context {F : Type} `{Number F}.

Lemma update_euler_step (b : GeneBlock F) (s : Z) :
  is_zero (time_constant b) = false ->
  update b s = Ok (set_voltage (euler_step b s (_voltage b)) b).
Proof.
  intros Hz. unfold update, _charge, _discharge, py_div, euler_step.
  rewrite Hz. now destruct (s >=? threshhold b)%Z.
Qed.

Lemma update_calls_snoc (n : nat) (s : Z) (b : GeneBlock F) :
  update_calls (S n) s b
  = match update_calls n s b with
    | Ok b' => update b' s
    | Raise e => Raise e
    end.
Proof.
  revert b. induction n as [|n IH]; intros b.
  - cbn. now destruct (update b s).
  - change (update_calls (S (S n)) s b)
      with (match update b s with
            | Ok b' => update_calls (S n) s b'
            | Raise e => Raise e
            end).
    destruct (update b s) as [b1|e] eqn:E.
    + rewrite IH. cbn. now rewrite E.
    + cbn. now rewrite E.
Qed.

Lemma update_calls_euler (n : nat) (s : Z) (b : GeneBlock F) :
  is_zero (time_constant b) = false ->
  update_calls n s b = Ok (set_voltage (euler n b s (_voltage b)) b).
Proof.
  intros Hz. induction n as [|n IH].
  - cbn. now destruct b.
  - rewrite update_calls_snoc, IH, update_euler_step by exact Hz.
    reflexivity.
Qed.
End Euler.

(** ** Exact arithmetic *)

Section Exact.
Local Open Scope Q_scope.

Lemma Q_of_nat_S (n : nat) : inject_Z (Z.of_nat (S n)) == inject_Z (Z.of_nat n) + 1.
Proof. rewrite Nat2Z.inj_succ, <- Z.add_1_r, inject_Z_plus. reflexivity. Qed.

Lemma Q_of_nat_nonneg (n : nat) : 0 <= inject_Z (Z.of_nat n).
Proof. change 0 with (inject_Z 0). rewrite <- Zle_Qle. lia. Qed.

Lemma Q_archimedes (x : Q) : exists N : nat, x <= inject_Z (Z.of_nat N).
Proof.
  exists (Z.to_nat (Qceiling x)).
  eapply Qle_trans; [apply Qle_ceiling|].
  rewrite <- Zle_Qle. lia.
Qed.

Section Decay.
Variables (d : nat -> Q) (c : Q).
Hypothesis Hc : 0 < c < 1.
Hypothesis Hd0 : 0 < d 0%nat.
Hypothesis Hstep : forall n, d (S n) == d n * (1 - c).

Lemma decay_pos (n : nat) : 0 < d n.
Proof.
  induction n as [|n IH]; [exact Hd0|].
  rewrite Hstep. apply Qmult_lt_0_compat; lra.
Qed.

Lemma decay_decreasing (n : nat) : d (S n) < d n.
Proof.
  rewrite Hstep. pose proof (decay_pos n).
  assert (0 < d n * c) by (apply Qmult_lt_0_compat; lra).
  lra.
Qed.

Lemma decay_bound (n : nat) : d n * (1 + inject_Z (Z.of_nat n) * c) <= d 0%nat.
Proof.
  induction n as [|n IH].
  - change (inject_Z (Z.of_nat 0)) with 0. lra.
  - rewrite Hstep, Q_of_nat_S.
    pose proof (decay_pos n) as Hp. pose proof (Q_of_nat_nonneg n) as Hn.
    set (k := inject_Z (Z.of_nat n)) in *.
    eapply Qle_trans; [|exact IH].
    assert (E : d n * (1 - c) * (1 + (k + 1) * c)
                == d n * (1 + k * c) - d n * ((k + 1) * (c * c))) by ring.
    rewrite E.
    assert (0 <= d n * ((k + 1) * (c * c))).
    { apply Qmult_le_0_compat; [lra|].
      apply Qmult_le_0_compat; [lra|]. apply Qmult_le_0_compat; lra. }
    lra.
Qed.

Lemma decay_vanishes (eps : Q) :
  0 < eps -> exists N : nat, forall n : nat, (N <= n)%nat -> d n < eps.
Proof.
  intros He.
  destruct (Q_archimedes (d 0%nat / (eps * c))) as [N HN].
  exists N. intros n Hn.
  pose proof (decay_bound n) as Hb. pose proof (decay_pos n) as Hp.
  assert (Hk : inject_Z (Z.of_nat N) <= inject_Z (Z.of_nat n)).
  { rewrite <- Zle_Qle. lia. }
  set (k := inject_Z (Z.of_nat n)) in *.
  assert (Hec : 0 < eps * c) by (apply Qmult_lt_0_compat; lra).
  assert (Hd : d 0%nat <= k * (eps * c)).
  { assert (E : d 0%nat == d 0%nat / (eps * c) * (eps * c)) by (field; lra).
    rewrite E.
    apply Qmult_le_compat_r; [|lra].
    eapply Qle_trans; eassumption. }
  destruct (Qlt_le_dec (d n) eps) as [|Hge]; [assumption|exfalso].
  assert (H1 : eps * (1 + k * c) <= d n * (1 + k * c)).
  { apply Qmult_le_compat_r; [assumption|].
    assert (0 <= k * c) by (apply Qmult_le_0_compat; [apply Q_of_nat_nonneg|lra]).
    lra. }
  assert (E : eps * (1 + k * c) == eps + k * (eps * c)) by ring.
  lra.
Qed.
End Decay.

Lemma Q_is_zero_false (x : Q) : 0 < x -> is_zero x = false.
Proof.
  intros Hx. cbn. apply not_true_iff_false. rewrite Qeq_bool_iff. lra.
Qed.

Lemma Q_rate (tc : Q) :
  (1 # 1000) <= tc -> 0 < (1 # 1000) / tc <= 1.
Proof.
  intros Htc. assert (0 < tc) by lra. split.
  - apply Qlt_shift_div_l; lra.
  - apply Qle_shift_div_r; lra.
Qed.

Lemma Q_rate_strict (tc : Q) :
  (1 # 1000) < tc -> 0 < (1 # 1000) / tc < 1.
Proof.
  intros Htc. assert (0 < tc) by lra. split.
  - apply Qlt_shift_div_l; lra.
  - apply Qlt_shift_div_r; lra.
Qed.

Lemma Q_charge_gap (tc v : Q) :
  0 < tc ->
  9 - (v + (9 - v) / tc * (1 # 1000)) == (9 - v) * (1 - (1 # 1000) / tc).
Proof. intros. field. lra. Qed.

Lemma Q_discharge (tc v : Q) :
  0 < tc -> v - v / tc * (1 # 1000) == v * (1 - (1 # 1000) / tc).
Proof. intros. field. lra. Qed.

Lemma Q_euler_step_range (b : GeneBlock Q) (s : Z) (v : Q) :
  DELTA_T <= time_constant b -> 0 <= v <= MAX_VOLTAGE ->
  0 <= euler_step b s v <= MAX_VOLTAGE.
Proof.
  cbn. intros Htc Hv. pose proof (Q_rate _ Htc) as Hc. assert (0 < time_constant b) by lra.
  unfold euler_step. cbn. destruct (s >=? threshhold b)%Z.
  - pose proof (Q_charge_gap (time_constant b) v ltac:(lra)) as E.
    set (c := (1 # 1000) / time_constant b) in *.
    assert (0 <= (9 - v) * (1 - c)) by (apply Qmult_le_0_compat; lra).
    assert (0 <= (9 - v) * c) by (apply Qmult_le_0_compat; lra).
    assert ((9 - v) * (1 - c) == 9 - v - (9 - v) * c) by ring.
    lra.
  - pose proof (Q_discharge (time_constant b) v ltac:(lra)) as E.
    set (c := (1 # 1000) / time_constant b) in *.
    rewrite E.
    assert (0 <= v * (1 - c)) by (apply Qmult_le_0_compat; lra).
    assert (0 <= v * c) by (apply Qmult_le_0_compat; lra).
    assert (v * (1 - c) == v - v * c) by ring.
    lra.
Qed.

Lemma Q_voltage_after (n : nat) (s : Z) (b : GeneBlock Q) :
  0 < time_constant b ->
  voltage_after n s b = Some (euler n b s (_voltage b)).
Proof.
  intros Htc. unfold voltage_after.
  now rewrite update_calls_euler by now apply Q_is_zero_false.
Qed.





End Exact.

(** ** Binary64 *)



(** In binary64 the default block, charged from zero 200000 times, never
    loses voltage and never exceeds [MAX_VOLTAGE]; switched on and discharged
    200000 times, it never gains voltage and never goes below zero. *)
Example default_block_stays_in_range :
  charges_within (Z.to_nat 200000) 2 default_GeneBlock = true
  /\ discharges_within (Z.to_nat 200000) 0 (turn_on default_GeneBlock) = true.
Proof. split; vm_compute; reflexivity. Qed.

(** ** Sampling the blocks *)

Section Phase1.
Context {F : Type} `{Number F}.

Lemma St_bind_unfold {S A B : Type} (m : St S A) (k : A -> St S B) (s : S) :
  (m ≫= k) s
  = match m s with
    | (s', Ok a) => k a s'
    | (s', Raise e) => (s', Raise e)
    end.
Proof. reflexivity. Qed.

Lemma mapM_call_is_active (l : list ref) (σ : store F) :
  mapM call_is_active l σ = (latch_all l σ, Ok (sampled l σ)).
Proof.
  revert σ. induction l as [|r l IH]; intros σ; [reflexivity|].
  cbn [mapM latch_all sampled]. rewrite St_bind_unfold.
  unfold call_is_active at 1. destruct (is_active (σ r)) as [b' v] eqn:E.
  rewrite St_bind_unfold, IH. reflexivity.
Qed.

Lemma store_set_eq (r : ref) (b : GeneBlock F) (σ : store F) :
  store_set r b σ r = b.
Proof. unfold store_set. now rewrite decide_True. Qed.

Lemma store_set_ne (r r' : ref) (b : GeneBlock F) (σ : store F) :
  r' ≠ r -> store_set r b σ r' = σ r'.
Proof. intros Hne. unfold store_set. now rewrite decide_False. Qed.

Lemma latch_all_app (l1 l2 : list ref) (σ : store F) :
  latch_all (l1 ++ l2) σ = latch_all l2 (latch_all l1 σ).
Proof. revert σ. induction l1 as [|r l1 IH]; intros σ; [reflexivity|apply IH]. Qed.

Lemma sampled_app (l1 l2 : list ref) (σ : store F) :
  sampled (l1 ++ l2) σ = sampled l1 σ ++ sampled l2 (latch_all l1 σ).
Proof.
  revert σ. induction l1 as [|r l1 IH]; intros σ; [reflexivity|].
  cbn. now rewrite IH.
Qed.

Lemma length_sampled (l : list ref) (σ : store F) :
  length (sampled l σ) = length l.
Proof. revert σ. induction l as [|r l IH]; intros σ; cbn; [|rewrite IH]; reflexivity. Qed.

Lemma latch_all_notin (l : list ref) (σ : store F) (r : ref) :
  r ∉ l -> latch_all l σ r = σ r.
Proof.
  revert σ. induction l as [|r0 l IH]; intros σ Hr; [reflexivity|].
  apply not_elem_of_cons in Hr as [Hne Hr]. cbn.
  rewrite IH by exact Hr. now apply store_set_ne.
Qed.

(** Sampling touches latches only. *)
Lemma latch_all_fields (l : list ref) (σ : store F) (r : ref) :
  latch_all l σ r = set_active (_is_active (latch_all l σ r)) (σ r).
Proof.
  revert σ. induction l as [|r0 l IH]; intros σ.
  - cbn. now destruct (σ r).
  - cbn [latch_all]. rewrite IH at 1.
    destruct (decide (r = r0)) as [->|Hne].
    + rewrite store_set_eq. rewrite is_active_fields. reflexivity.
    + now rewrite store_set_ne.
Qed.

Lemma sampled_lookup (l : list ref) (σ : store F) (i : nat) (r : ref) :
  l !! i = Some r ->
  sampled l σ !! i = Some (snd (is_active (latch_all (take i l) σ r))).
Proof.
  intros Hi. rewrite <- (take_drop i l) at 1. rewrite sampled_app.
  rewrite lookup_app_r by (rewrite length_sampled, length_take; lia).
  rewrite length_sampled, length_take.
  apply lookup_lt_Some in Hi as Hlt.
  replace (i - i `min` length l) with 0 by lia.
  rewrite (drop_S l r i Hi). reflexivity.
Qed.

Lemma latch_all_take_S (l : list ref) (σ : store F) (i : nat) (r : ref) :
  l !! i = Some r ->
  latch_all (take (S i) l) σ r = fst (is_active (latch_all (take i l) σ r)).
Proof.
  intros Hi. rewrite (take_S_r l i r Hi), latch_all_app. cbn.
  apply store_set_eq.
Qed.

Lemma is_active_bit (b : GeneBlock F) :
  snd (is_active b) = 0%Z \/ snd (is_active b) = 1%Z.
Proof.
  rewrite is_active_comparator.
  destruct (comparator_cases (lower b) (upper b) b) as [[-> _]|[->| ->]];
    cbn; auto.
Qed.

Lemma sampled_bits (l : list ref) (σ : store F) :
  Forall (fun v => v = 0%Z \/ v = 1%Z) (sampled l σ).
Proof.
  revert σ. induction l as [|x l IH]; intros σ; cbn [sampled]; constructor.
  - apply is_active_bit.
  - apply IH.
Qed.
End Phase1.

Section Latch.
Context {F : Type} `{Number F}.

Lemma latch_all_nodup (l : list ref) (σ : store F) (i : nat) (r : ref) :
  NoDup l -> l !! i = Some r ->
  latch_all l σ r = latch_all (take (S i) l) σ r.
Proof.
  intros Hnd Hi. rewrite <- (take_drop (S i) l) at 1.
  rewrite latch_all_app. apply latch_all_notin.
  rewrite <- (take_drop (S i) l) in Hnd.
  apply NoDup_app in Hnd as (_ & Hdisj & _).
  apply Hdisj. rewrite (take_S_r l i r Hi). set_solver.
Qed.

(** C10.  The int [is_active] returns is the latch it leaves: 1 exactly when
    the latch is set after the call, 0 exactly when it is cleared.
    [get_block_states] never raises and reports, for every position of the
    board, the latch of that block as its own call left it; when no block is
    on the board twice, that is the latch in the store the whole call
    leaves. *)
Theorem is_active_reports_latch :
  (forall b : GeneBlock F,
      let '(b', r) := is_active b in
      (r = 1%Z <-> _is_active b' = true) /\ (r = 0%Z <-> _is_active b' = false))
  /\ (forall (bd : Board) (σ : store F),
        exists (σ' : store F) (states : list Z),
          get_block_states bd σ = (σ', Ok states)
          /\ length states = length (_blocks bd)
          /\ (forall (i : nat) (r : ref),
                _blocks bd !! i = Some r ->
                states !! i
                = Some (Z.b2z (_is_active
                     (fst (mapM call_is_active (take (S i) (_blocks bd)) σ) r))))
          /\ (NoDup (_blocks bd) ->
              forall (i : nat) (r : ref),
                _blocks bd !! i = Some r ->
                states !! i = Some (Z.b2z (_is_active (σ' r))))).
Proof.
  split.
  - intros b. pose proof (is_active_returns_latch b) as E.
    destruct (is_active b) as [b' r]. cbn in E. subst r.
    destruct (_is_active b'); cbn; split; split; congruence.
  - intros bd σ. exists (latch_all (_blocks bd) σ), (sampled (_blocks bd) σ).
    unfold get_block_states. rewrite mapM_call_is_active.
    split; [reflexivity|]. split; [apply length_sampled|].
    assert (Hpos : forall i r, _blocks bd !! i = Some r ->
      sampled (_blocks bd) σ !! i
      = Some (Z.b2z (_is_active (latch_all (take (S i) (_blocks bd)) σ r)))).
    { intros i r Hi. rewrite (sampled_lookup _ _ _ _ Hi).
      rewrite (latch_all_take_S _ _ _ _ Hi).
      now rewrite is_active_returns_latch. }
    split.
    + intros i r Hi. rewrite mapM_call_is_active. cbn [fst]. now apply Hpos.
    + intros Hnd i r Hi. rewrite (latch_all_nodup _ _ _ _ Hnd Hi). now apply Hpos.
Qed.
End Latch.

(** On the mutually exciting pair both blocks report 1 and are left
    latched. *)
Lemma is_active_reports_latch_witness :
  exists σ' : store float,
    get_block_states mutual_board mutual_store = (σ', Ok [1; 1]%Z)
    /\ _is_active (σ' 0) = true /\ _is_active (σ' 1) = true.
Proof.
  destruct (proj2 (@is_active_reports_latch float _) mutual_board mutual_store)
    as (σ' & states & Hrun & _ & _ & Hfinal).
  assert (Hnd : NoDup (_blocks mutual_board)).
  { cbn. apply NoDup_cons. split; [|apply NoDup_singleton].
    intros Hin. apply list_elem_of_singleton in Hin. discriminate. }
  assert (Hstates : states = [1; 1]%Z).
  { assert (E : (σ', Ok states)
                = (fst (get_block_states mutual_board mutual_store),
                   Ok [1; 1]%Z)) by (rewrite <- Hrun; reflexivity).
    now injection E. }
  subst states. exists σ'. split; [exact Hrun|].
  pose proof (Hfinal Hnd 0 0 eq_refl) as H0.
  pose proof (Hfinal Hnd 1 1 eq_refl) as H1.
  cbn in H0, H1.
  split; [destruct (_is_active (σ' 0))|destruct (_is_active (σ' 1))];
    cbn in *; congruence.
Defined.

(** ** Failing lookups *)

(** One step of a computation that starts with a lifted result. *)
Ltac bind_lift := rewrite St_bind_unfold; unfold lift at 1.

Lemma resolve_unknown (bd : Board) (lbl : string) :
  _labelled_blocks bd !! lbl = None ->
  resolve bd (ByLabel lbl) = Raise (KeyError (not_found lbl)).
Proof. intros E. cbn. unfold _get_block_by_label. now rewrite E. Qed.

Lemma py_index_notin (x : ref) (l : list ref) :
  x ∉ l -> py_index x l = Raise ValueError.
Proof.
  intros Hx. unfold py_index.
  replace (list_index x l) with (@None nat); [reflexivity|].
  induction l as [|y l IH]; [reflexivity|].
  apply not_elem_of_cons in Hx as [Hne Hx]. cbn.
  rewrite decide_False by congruence. now rewrite <- IH.
Qed.

Lemma py_index_raise (x : ref) (l : list ref) (e : exn) :
  py_index x l = Raise e -> e = ValueError.
Proof. unfold py_index. destruct (list_index x l); congruence. Qed.

Lemma add_connection_unfold (source target : block_or_label) (value : Z)
    (bd : Board) :
  add_connection source target value bd
  = match resolve bd source with
    | Raise e => (bd, Raise e)
    | Ok source_block =>
      match resolve bd target with
      | Raise e => (bd, Raise e)
      | Ok target_block =>
        match py_index source_block (_blocks bd) with
        | Raise e => (bd, Raise e)
        | Ok source_idx =>
          match py_index target_block (_blocks bd) with
          | Raise e => (bd, Raise e)
          | Ok target_idx =>
            match np_setitem (connections bd) target_idx source_idx value with
            | Raise e => (bd, Raise e)
            | Ok c => (with_connections c bd, Ok tt)
            end
          end
        end
      end
    end.
Proof.
  unfold add_connection. rewrite St_bind_unfold. cbn [get_state].
  bind_lift. destruct (resolve bd source) as [source_block|e]; [|reflexivity].
  bind_lift. destruct (resolve bd target) as [target_block|e]; [|reflexivity].
  bind_lift.
  destruct (py_index source_block (_blocks bd)) as [source_idx|e]; [|reflexivity].
  bind_lift.
  destruct (py_index target_block (_blocks bd)) as [target_idx|e]; [|reflexivity].
  bind_lift.
  destruct (np_setitem (connections bd) target_idx source_idx value);
    reflexivity.
Qed.

(** C7.  A label that is not in the label map makes [board[label]],
    [add_connection], [remove_connection] and [remove_block] raise the
    [KeyError] whose message names the label; a block object that is not on
    the board makes a connection operation raise the [ValueError] of
    [list.index]; and a connection operation that raises leaves the board as
    it was, as does [remove_block] with an unknown label. *)
Theorem failed_lookup_leaves_board_unchanged :
  (forall lbl : string,
      not_found lbl = "Could not locate block with label " +:+ lbl +:+ ".")
  /\ (forall (bd : Board) (lbl : string),
        _labelled_blocks bd !! lbl = None ->
        getitem bd (ItemStr lbl) = Raise (KeyError (not_found lbl))
        /\ remove_block (ByLabel lbl) bd = (bd, Raise (KeyError (not_found lbl)))
        /\ (forall (target : block_or_label) (value : Z),
              add_connection (ByLabel lbl) target value bd
              = (bd, Raise (KeyError (not_found lbl)))
              /\ remove_connection (ByLabel lbl) target bd
                 = (bd, Raise (KeyError (not_found lbl))))
        /\ (forall (source : block_or_label) (b : ref) (value : Z),
              resolve bd source = Ok b ->
              add_connection source (ByLabel lbl) value bd
              = (bd, Raise (KeyError (not_found lbl)))
              /\ remove_connection source (ByLabel lbl) bd
                 = (bd, Raise (KeyError (not_found lbl)))))
  /\ (forall (bd : Board) (source target : block_or_label) (bs bt : ref)
        (value : Z),
        resolve bd source = Ok bs -> resolve bd target = Ok bt ->
        bs ∉ _blocks bd \/ bt ∉ _blocks bd ->
        add_connection source target value bd = (bd, Raise ValueError)
        /\ remove_connection source target bd = (bd, Raise ValueError))
  /\ (forall (bd bd' : Board) (source target : block_or_label) (value : Z)
        (e : exn),
        add_connection source target value bd = (bd', Raise e) -> bd' = bd).
Proof.
  split; [reflexivity|]. split; [|split].
  - intros bd lbl Hl. split; [|split; [|split]].
    + cbn. unfold _get_block_by_label. now rewrite Hl.
    + unfold remove_block. rewrite St_bind_unfold.
      rewrite St_bind_unfold. cbn [get_state]. rewrite St_bind_unfold.
      unfold lift at 1. unfold _get_block_by_label. now rewrite Hl.
    + intros target value. unfold remove_connection.
      rewrite !add_connection_unfold, (resolve_unknown _ _ Hl). now split.
    + intros source b value Hs. unfold remove_connection.
      rewrite !add_connection_unfold, Hs, (resolve_unknown _ _ Hl). now split.
  - intros bd source target bs bt value Hs Ht Hnot. unfold remove_connection.
    rewrite !add_connection_unfold, Hs, Ht.
    destruct (decide (bs ∈ _blocks bd)) as [Hin|Hout].
    + destruct Hnot as [?|Hbt]; [contradiction|].
      rewrite (py_index_notin _ _ Hbt).
      destruct (py_index bs (_blocks bd)) as [i|e] eqn:E; [now split|].
      apply py_index_raise in E as ->. now split.
    + rewrite (py_index_notin _ _ Hout). now split.
  - intros bd bd' source target value e. rewrite add_connection_unfold.
    repeat match goal with
      | |- context [match ?x with Ok _ => _ | Raise _ => _ end] => destruct x
      end; congruence.
Qed.

(** On the board holding [X] alone, the label "Y" is unknown. *)
Lemma failed_lookup_leaves_board_unchanged_witness :
  _labelled_blocks X_board !! "Y" = None
  /\ getitem X_board (ItemStr "Y")
     = Raise (KeyError "Could not locate block with label Y.")
  /\ remove_block (ByLabel "Y") X_board
     = (X_board, Raise (KeyError "Could not locate block with label Y."))
  /\ add_connection (ByLabel "Y") (ByLabel "X") 1 X_board
     = (X_board, Raise (KeyError "Could not locate block with label Y."))
  /\ add_connection (ByBlock 0) (ByBlock 7) 1 X_board
     = (X_board, Raise ValueError).
Proof.
  assert (Hl : _labelled_blocks X_board !! "Y" = None) by (vm_compute; reflexivity).
  destruct failed_lookup_leaves_board_unchanged as (_ & Hlabel & Hobj & _).
  destruct (Hlabel X_board "Y" Hl) as (Hget & Hrm & Hsrc & _).
  split; [exact Hl|]. split; [exact Hget|]. split; [exact Hrm|].
  split; [exact (proj1 (Hsrc (ByLabel "X") 1%Z))|].
  refine (proj1 (Hobj X_board (ByBlock 0) (ByBlock 7) 0 7 1%Z eq_refl eq_refl _)).
  right. intros Hin. apply list_elem_of_singleton in Hin. discriminate.
Defined.

(** ** [remove_block] unfolded *)

Lemma remove_block_unfold (arg : block_or_label) (bd : Board) :
  remove_block arg bd
  = match arg with
    | ByLabel lbl =>
        match _get_block_by_label bd lbl with
        | Raise e => (bd, Raise e)
        | Ok block =>
            remove_resolved block
              (with_labelled_blocks (delete lbl (_labelled_blocks bd)) bd)
        end
    | ByBlock b => remove_resolved b bd
    end.
Proof.
  assert (Hrest : forall block bd0,
    (bd ← get_state;
     block_idx ← lift (py_index block (_blocks bd));
     modify (with_blocks (delete block_idx (_blocks bd))) ;;
     for_each [0; 1] (fun axis =>
       bd ← get_state;
       c ← lift (np_delete (connections bd) block_idx axis);
       modify (with_connections c))) bd0
    = remove_resolved block bd0).
  { intros block bd0. unfold remove_resolved.
    rewrite St_bind_unfold. cbn [get_state].
    rewrite St_bind_unfold. unfold lift at 1.
    destruct (py_index block (_blocks bd0)) as [idx|e]; [|reflexivity].
    rewrite St_bind_unfold. cbn [modify for_each].
    rewrite St_bind_unfold. rewrite St_bind_unfold. cbn [get_state].
    rewrite St_bind_unfold. unfold lift at 1.
    destruct (np_delete _ idx 0) as [c0|e]; [|reflexivity].
    cbn [modify]. rewrite St_bind_unfold. rewrite St_bind_unfold.
    cbn [get_state]. rewrite St_bind_unfold. unfold lift at 1.
    cbn [connections with_connections].
    destruct (np_delete c0 idx 1) as [c1|e]; reflexivity. }
  unfold remove_block. rewrite St_bind_unfold. destruct arg as [lbl|b].
  - rewrite St_bind_unfold. cbn [get_state]. rewrite St_bind_unfold.
    unfold lift at 1.
    destruct (_get_block_by_label bd lbl) as [block|e]; [|reflexivity].
    rewrite St_bind_unfold. cbn [modify]. cbn [mret St_ret]. apply Hrest.
  - cbn [mret St_ret]. apply Hrest.
Qed.

(** ** Resizing the connection matrix *)

Lemma list_index_elem (x : ref) (l : list ref) :
  x ∈ l -> exists k : nat, list_index x l = Some k /\ l !! k = Some x.
Proof.
  induction l as [|y l IH]; intros Hx; [now apply elem_of_nil in Hx|].
  cbn. destruct (decide (y = x)) as [->|Hne]; [now exists 0|].
  apply elem_of_cons in Hx as [->|Hx]; [congruence|].
  destruct (IH Hx) as (k & -> & Hk). now exists (S k).
Qed.

Lemma list_index_Some (x : ref) (l : list ref) (i : nat) :
  list_index x l = Some i -> l !! i = Some x.
Proof.
  revert i. induction l as [|y l IH]; intros i; [discriminate|].
  cbn. destruct (decide (y = x)) as [->|Hne].
  - intros [= <-]. reflexivity.
  - destruct (list_index x l) as [j|]; [|discriminate].
    intros [= <-]. cbn. now apply IH.
Qed.

Lemma py_index_Ok (x : ref) (l : list ref) (i : nat) :
  py_index x l = Ok i -> l !! i = Some x.
Proof.
  unfold py_index. destruct (list_index x l) as [j|] eqn:E; [|discriminate].
  intros [= <-]. now apply list_index_Some.
Qed.

Lemma paste_rows_zeros (src : list (list Z)) (c : nat) :
  Forall (fun row => length row = c) src ->
  paste_rows (replicate (length src + 1) (replicate (c + 1) 0%Z)) src
  = ((fun row => row ++ [0%Z]) <$> src) ++ [replicate (c + 1) 0%Z].
Proof.
  induction 1 as [|row src Hrow Hsrc IH]; [reflexivity|].
  cbn [length Nat.add replicate paste_rows fmap list_fmap app]. f_equal.
  - unfold paste_row. f_equal. rewrite drop_replicate, Hrow.
    replace (c + 1 - c) with 1 by lia. reflexivity.
  - exact IH.
Qed.

Lemma add_block_eq {F : Type} `{Number F} (σ : store F) (block : ref)
    (bd : Board) :
  add_block σ block bd
  = (let grown :=
       assign_top_left
         (np_zeros (nrows (connections bd) + 1) (ncols (connections bd) + 1))
         (connections bd) in
     let bd' := with_connections grown (with_blocks (_blocks bd ++ [block]) bd) in
     if bool_decide (get_label (σ block) ≠ "") then
       with_labelled_blocks
         (<[get_label (σ block) := block]> (_labelled_blocks bd)) bd'
     else bd', Ok tt).
Proof.
  unfold add_block. rewrite St_bind_unfold. cbn [get_state].
  rewrite St_bind_unfold. cbn [modify]. rewrite St_bind_unfold. cbn [modify].
  destruct (bool_decide (get_label (σ block) ≠ "")); reflexivity.
Qed.

Lemma add_block_fields {F : Type} `{Number F} (σ : store F) (block : ref)
    (bd : Board) :
  snd (add_block σ block bd) = Ok tt
  /\ _blocks (fst (add_block σ block bd)) = _blocks bd ++ [block]
  /\ connections (fst (add_block σ block bd))
     = assign_top_left
         (np_zeros (nrows (connections bd) + 1) (ncols (connections bd) + 1))
         (connections bd).
Proof.
  rewrite add_block_eq. cbn zeta.
  destruct (bool_decide (get_label (σ block) ≠ "")); repeat split.
Qed.

Lemma grown_rows (a : ndarray) :
  rectangular a ->
  rows (assign_top_left (np_zeros (nrows a + 1) (ncols a + 1)) a)
  = ((fun row => row ++ [0%Z]) <$> rows a) ++ [replicate (ncols a + 1) 0%Z].
Proof. intros Hr. cbn. unfold nrows. now apply paste_rows_zeros. Qed.

Lemma grown_rectangular (a : ndarray) :
  rectangular a ->
  rectangular (assign_top_left (np_zeros (nrows a + 1) (ncols a + 1)) a).
Proof.
  intros Hr. unfold rectangular. rewrite (grown_rows a Hr). cbn [ncols assign_top_left np_zeros].
  apply Forall_app. split.
  - apply Forall_fmap. eapply Forall_impl; [exact Hr|].
    intros row Hrow. cbn. rewrite length_app, Hrow. reflexivity.
  - apply Forall_singleton. apply length_replicate.
Qed.

Lemma grown_entry_old (a : ndarray) (i j : nat) :
  rectangular a -> i < nrows a -> j < ncols a ->
  entry (assign_top_left (np_zeros (nrows a + 1) (ncols a + 1)) a) i j
  = entry a i j.
Proof.
  intros Hr Hi Hj. unfold entry. rewrite (grown_rows a Hr).
  rewrite lookup_app_l by (rewrite length_fmap; exact Hi).
  rewrite list_lookup_fmap.
  destruct (rows a !! i) as [row|] eqn:E; [|reflexivity]. cbn.
  apply lookup_app_l.
  rewrite (proj1 (Forall_lookup _ _) Hr i row E). exact Hj.
Qed.

Lemma grown_entry_new (a : ndarray) (i : nat) :
  rectangular a -> i <= nrows a -> nrows a = ncols a ->
  entry (assign_top_left (np_zeros (nrows a + 1) (ncols a + 1)) a) i (ncols a)
  = Some 0%Z
  /\ entry (assign_top_left (np_zeros (nrows a + 1) (ncols a + 1)) a) (nrows a) i
     = Some 0%Z.
Proof.
  intros Hr Hi Hsq. unfold entry. rewrite (grown_rows a Hr). split.
  - destruct (decide (i < nrows a)) as [Hlt|Hge].
    + rewrite lookup_app_l by (rewrite length_fmap; exact Hlt).
      rewrite list_lookup_fmap.
      destruct (lookup_lt_is_Some_2 (rows a) i Hlt) as [row E]. rewrite E. cbn.
      pose proof (proj1 (Forall_lookup _ _) Hr i row E) as Hlen. cbn in Hlen.
      rewrite lookup_app_r by lia. rewrite Hlen, Nat.sub_diag. reflexivity.
    + assert (i = nrows a) as -> by lia.
      rewrite lookup_app_r by (rewrite length_fmap; unfold nrows; lia).
      rewrite length_fmap. unfold nrows. rewrite Nat.sub_diag. cbn.
      apply lookup_replicate_2. lia.
  - rewrite lookup_app_r by (rewrite length_fmap; unfold nrows; lia).
    rewrite length_fmap. unfold nrows at 1. rewrite Nat.sub_diag. cbn.
    apply lookup_replicate_2. lia.
Qed.

Lemma grown_shape (a : ndarray) :
  rectangular a ->
  shape (assign_top_left (np_zeros (nrows a + 1) (ncols a + 1)) a)
  = (nrows a + 1, ncols a + 1).
Proof.
  intros Hr. unfold shape. f_equal.
  unfold nrows at 1. rewrite (grown_rows a Hr).
  rewrite length_app, length_fmap. reflexivity.
Qed.

Lemma add_block_square {F : Type} `{Number F} (σ : store F) (block : ref)
    (bd : Board) :
  square bd -> square (fst (add_block σ block bd)).
Proof.
  intros [Hr Hs]. destruct (add_block_fields σ block bd) as (_ & Hb & Hc).
  unfold square. rewrite Hb, Hc. split; [now apply grown_rectangular|].
  rewrite (grown_shape _ Hr), length_app. cbn.
  injection Hs as Hn Hm. now rewrite Hn, Hm.
Qed.

Lemma lookup_delete_skip {A : Type} (l : list A) (k i : nat) :
  delete k l !! i = l !! skip k i.
Proof.
  unfold skip. destruct (decide (i < k)) as [Hlt|Hge].
  - now apply list_lookup_delete_lt.
  - apply list_lookup_delete_ge. lia.
Qed.

Lemma np_delete_both (a : ndarray) (k : nat) :
  k < nrows a -> k < ncols a ->
  exists c0, np_delete a k 0 = Ok c0 /\ np_delete c0 k 1 = Ok (without k a).
Proof.
  intros Hr Hc. eexists. split.
  - cbn. rewrite decide_True by exact Hr. reflexivity.
  - cbn. rewrite decide_True by exact Hc. reflexivity.
Qed.

Lemma without_entry (a : ndarray) (k i j : nat) :
  entry (without k a) i j = entry a (skip k i) (skip k j).
Proof.
  unfold entry. cbn. rewrite list_lookup_fmap, lookup_delete_skip.
  destruct (rows a !! skip k i) as [row|]; [|reflexivity]. cbn.
  apply lookup_delete_skip.
Qed.

Lemma without_rectangular (a : ndarray) (k : nat) :
  rectangular a -> k < ncols a -> rectangular (without k a).
Proof.
  intros Hr Hk. unfold rectangular, without. cbn.
  apply Forall_fmap. apply Forall_delete.
  eapply Forall_impl; [exact Hr|]. intros row Hrow. cbn in Hrow |- *.
  rewrite length_delete by (apply lookup_lt_is_Some_2; lia). lia.
Qed.

Lemma without_shape (a : ndarray) (k : nat) :
  k < nrows a -> shape (without k a) = (nrows a - 1, ncols a - 1).
Proof.
  intros Hk. unfold shape, nrows, without. cbn. f_equal.
  rewrite length_fmap, length_delete by (apply lookup_lt_is_Some_2; exact Hk).
  reflexivity.
Qed.

Lemma remove_resolved_square (block : ref) (bd : Board) :
  square bd ->
  match py_index block (_blocks bd) with
  | Raise e => remove_resolved block bd = (bd, Raise e)
  | Ok k =>
      _blocks bd !! k = Some block
      /\ remove_resolved block bd
         = (with_connections (without k (connections bd))
              (with_blocks (delete k (_blocks bd)) bd), Ok tt)
  end.
Proof.
  intros [Hr Hs]. unfold remove_resolved.
  destruct (py_index block (_blocks bd)) as [k|e] eqn:E; [|reflexivity].
  apply py_index_Ok in E as Hk. split; [exact Hk|].
  apply lookup_lt_Some in Hk. injection Hs as Hn Hm.
  cbn [connections with_blocks].
  destruct (np_delete_both (connections bd) k) as (c0 & -> & ->); [lia..|].
  reflexivity.
Qed.

Lemma remove_resolved_keeps_square (block : ref) (bd : Board) :
  square bd -> square (fst (remove_resolved block bd)).
Proof.
  intros Hsq. pose proof (remove_resolved_square block bd Hsq) as Hrm.
  destruct (py_index block (_blocks bd)) as [k|e].
  - destruct Hrm as [Hk ->]. cbn [fst]. destruct Hsq as [Hr Hs].
    apply lookup_lt_Some in Hk as Hlt. injection Hs as Hn Hm.
    split; cbn [connections with_connections _blocks with_blocks].
    + apply without_rectangular; [exact Hr|lia].
    + rewrite without_shape by lia.
      rewrite length_delete by (now apply lookup_lt_is_Some_2).
      now rewrite Hn, Hm.
  - now rewrite Hrm.
Qed.

Lemma with_labelled_blocks_square (m : gmap string ref) (bd : Board) :
  square bd -> square (with_labelled_blocks m bd).
Proof. now intros [Hr Hs]. Qed.

Lemma remove_block_square (arg : block_or_label) (bd : Board) :
  square bd -> square (fst (remove_block arg bd)).
Proof.
  intros Hsq. rewrite remove_block_unfold. destruct arg as [lbl|b].
  - destruct (_get_block_by_label bd lbl); [|exact Hsq].
    now apply remove_resolved_keeps_square, with_labelled_blocks_square.
  - now apply remove_resolved_keeps_square.
Qed.

Lemma np_setitem_inv (a c : ndarray) (i j : nat) (value : Z) :
  np_setitem a i j value = Ok c ->
  i < nrows a /\ j < ncols a /\ in_int64 value
  /\ c = {| ncols := ncols a;
            rows := alter (fun row => <[j := value]> row) i (rows a) |}.
Proof.
  unfold np_setitem. destruct (decide _) as [[Hi Hj]|]; [|discriminate].
  destruct (decide _) as [Hv|]; [|discriminate]. intros [= <-]. auto.
Qed.

Lemma np_setitem_intro (a : ndarray) (i j : nat) (value : Z) :
  i < nrows a -> j < ncols a -> in_int64 value ->
  np_setitem a i j value
  = Ok {| ncols := ncols a;
          rows := alter (fun row => <[j := value]> row) i (rows a) |}.
Proof.
  intros Hi Hj Hv. unfold np_setitem. now rewrite !decide_True.
Qed.

Lemma np_setitem_keeps (a c : ndarray) (i j : nat) (value : Z) :
  np_setitem a i j value = Ok c ->
  shape c = shape a /\ (rectangular a -> rectangular c).
Proof.
  unfold np_setitem. destruct (decide _); [|discriminate].
  destruct (decide _); [|discriminate]. intros [= <-].
  split.
  - unfold shape, nrows. cbn. now rewrite length_alter.
  - unfold rectangular. cbn. intros Hr.
    apply Forall_alter; [exact Hr|]. intros row _ Hrow.
    now rewrite length_insert.
Qed.

Lemma add_connection_square (source target : block_or_label) (value : Z)
    (bd : Board) :
  square bd -> square (fst (add_connection source target value bd)).
Proof.
  intros Hsq. rewrite add_connection_unfold.
  repeat match goal with
    | |- context [match ?x with Ok _ => _ | Raise _ => _ end] =>
        destruct x eqn:?
    end; try exact Hsq.
  destruct Hsq as [Hr Hs].
  match goal with E : np_setitem _ _ _ _ = Ok _ |- _ =>
    apply np_setitem_keeps in E as [Hshape Hrect] end.
  split; cbn [fst connections with_connections _blocks].
  - now apply Hrect.
  - now rewrite Hshape.
Qed.

Lemma new_Board_square : square new_Board.
Proof. split; [constructor|reflexivity]. Qed.

Lemma run_square {F : Type} `{Number F} (calls : list (@call F)) (bd : Board) :
  square bd -> square (run calls bd).
Proof.
  revert bd. induction calls as [|c calls IH]; intros bd Hsq; [exact Hsq|].
  cbn. apply IH. destruct c as [σ block|arg|source target value]; cbn.
  - now apply add_block_square.
  - now apply remove_block_square.
  - now apply add_connection_square.
Qed.

(** C6.  Starting from the empty board, after every sequence of [add_block],
    [remove_block] and [add_connection] calls (raising or not) the connection
    matrix is rectangular and its shape is (number of blocks, number of
    blocks).  On such a board [add_block] appends the block and grows the
    matrix by a zero row and a zero column, every old entry staying at its
    indices; [remove_block] of a block that is on the board, given as an
    object or by a label the label map resolves to it, returns and removes
    the block at its first index [k] and exactly row [k] and column [k], so
    that the entry of two surviving blocks is found at their shifted
    indices; and a [remove_block] returns in no other case. *)
Theorem connections_resize_invariant {F : Type} `{Number F} :
  (forall (calls : list (@call F)),
      rectangular (connections (run calls new_Board))
      /\ shape (connections (run calls new_Board))
         = (length (_blocks (run calls new_Board)),
            length (_blocks (run calls new_Board))))
  /\ (forall (σ : store F) (block : ref) (bd : Board),
        square bd ->
        exists bd' : Board,
          add_block σ block bd = (bd', Ok tt)
          /\ square bd'
          /\ _blocks bd' = _blocks bd ++ [block]
          /\ (forall i j : nat,
                i < length (_blocks bd) -> j < length (_blocks bd) ->
                entry (connections bd') i j = entry (connections bd) i j)
          /\ (forall i : nat,
                i <= length (_blocks bd) ->
                entry (connections bd') i (length (_blocks bd)) = Some 0%Z
                /\ entry (connections bd') (length (_blocks bd)) i = Some 0%Z))
  /\ (forall (arg : block_or_label) (bd : Board) (block : ref),
        square bd ->
        resolve bd arg = Ok block -> block ∈ _blocks bd ->
        exists (bd' : Board) (k : nat),
          remove_block arg bd = (bd', Ok tt)
          /\ list_index block (_blocks bd) = Some k
          /\ square bd'
          /\ _blocks bd' = delete k (_blocks bd)
          /\ length (_blocks bd') + 1 = length (_blocks bd)
          /\ (forall i : nat, _blocks bd' !! i = _blocks bd !! skip k i)
          /\ (forall i j : nat,
                entry (connections bd') i j
                = entry (connections bd) (skip k i) (skip k j)))
  /\ (forall (arg : block_or_label) (bd bd' : Board),
        square bd ->
        remove_block arg bd = (bd', Ok tt) ->
        exists block : ref,
          resolve bd arg = Ok block /\ block ∈ _blocks bd).
Proof.
  split; [|split; [|split]].
  - intros calls. exact (run_square calls new_Board new_Board_square).
  - intros σ block bd Hsq. pose proof (add_block_square σ block bd Hsq) as Hsq'.
    destruct Hsq as [Hr Hs]. injection Hs as Hn Hm.
    destruct (add_block_fields σ block bd) as (Hok & Hb & Hc).
    exists (fst (add_block σ block bd)).
    split; [|split; [exact Hsq'|split; [exact Hb|split]]].
    + rewrite (surjective_pairing (add_block σ block bd)) at 1.
      now rewrite Hok.
    + intros i j Hi Hj. rewrite Hc. apply grown_entry_old; [exact Hr|lia..].
    + intros i Hi. rewrite Hc.
      destruct (grown_entry_new (connections bd) i Hr) as [H1 H2]; [lia..|].
      split; [rewrite <- Hm; exact H1|rewrite <- Hn; exact H2].
  - intros arg bd block Hsq Hres Hin.
    pose proof (remove_block_square arg bd Hsq) as Hsq'.
    destruct (list_index_elem block _ Hin) as (k & Hk & Hlk).
    assert (Hrm : forall bd0 : Board,
      square bd0 -> _blocks bd0 = _blocks bd ->
      connections bd0 = connections bd ->
      exists bd' : Board,
        remove_resolved block bd0 = (bd', Ok tt)
        /\ _blocks bd' = delete k (_blocks bd)
        /\ connections bd' = without k (connections bd)).
    { intros bd0 Hsq0 Hb0 Hc0.
      pose proof (remove_resolved_square block bd0 Hsq0) as Hrr.
      unfold py_index in Hrr. rewrite Hb0, Hk in Hrr.
      destruct Hrr as [_ Hrr]. rewrite Hrr, Hc0. eexists.
      split; [reflexivity|]. split; reflexivity. }
    assert (exists bd' : Board,
      remove_block arg bd = (bd', Ok tt)
      /\ _blocks bd' = delete k (_blocks bd)
      /\ connections bd' = without k (connections bd))
      as (bd' & Hcall & Hb & Hc).
    { rewrite remove_block_unfold. destruct arg as [lbl|b]; cbn [resolve] in Hres.
      - rewrite Hres.
        apply Hrm; [now apply with_labelled_blocks_square|reflexivity..].
      - injection Hres as ->. now apply Hrm. }
    rewrite Hcall in Hsq'. cbn [fst] in Hsq'.
    exists bd', k. split; [exact Hcall|]. split; [exact Hk|].
    split; [exact Hsq'|]. split; [exact Hb|]. split; [|split].
    + rewrite Hb, length_delete by eauto. apply lookup_lt_Some in Hlk. lia.
    + intros i. rewrite Hb. apply lookup_delete_skip.
    + intros i j. rewrite Hc. apply without_entry.
  - intros arg bd bd' Hsq Hrm. rewrite remove_block_unfold in Hrm.
    assert (Hres : forall block bd0,
      remove_resolved block bd0 = (bd', Ok tt) -> block ∈ _blocks bd0).
    { intros block bd0 E. unfold remove_resolved in E.
      destruct (py_index block (_blocks bd0)) as [k|e] eqn:Ek; [|discriminate].
      apply py_index_Ok in Ek. eapply list_elem_of_lookup_2; eauto. }
    destruct arg as [lbl|b]; cbn [resolve].
    + destruct (_get_block_by_label bd lbl) as [block|e] eqn:El; [|discriminate].
      exists block. split; [reflexivity|]. exact (Hres _ _ Hrm).
    + exists b. split; [reflexivity|]. exact (Hres _ _ Hrm).
Qed.

(** Three blocks with nine different connection values; the middle block is
    removed: the call returns, the blocks [0] and [2] are left, and the
    matrix keeps the four entries of the surviving rows and columns. *)
Lemma connections_resize_invariant_witness :
  exists bd' : Board,
    remove_block (ByBlock 1) grid_board = (bd', Ok tt)
    /\ _blocks bd' = [0; 2]
    /\ shape (connections bd') = (2, 2)
    /\ entry (connections bd') 0 0 = Some 1%Z
    /\ entry (connections bd') 0 1 = Some 3%Z
    /\ entry (connections bd') 1 0 = Some 7%Z
    /\ entry (connections bd') 1 1 = Some 9%Z.
Proof.
  assert (Hsq : square grid_board)
    by (split; [repeat constructor|reflexivity]).
  assert (Hin : 1 ∈ _blocks grid_board)
    by apply list_elem_of_further, list_elem_of_here.
  destruct (proj1 (proj2 (proj2 (@connections_resize_invariant float _)))
              (ByBlock 1) grid_board 1 Hsq eq_refl Hin)
    as (bd' & k & Hrm & Hk & [_ Hshape] & Hb & _ & _ & He).
  injection Hk as <-.
  exists bd'. split; [exact Hrm|]. split; [exact Hb|].
  split; [now rewrite Hshape, Hb|].
  rewrite !He. repeat split.
Defined.

Lemma remove_resolved_Ok (block : ref) (bd bd' : Board) :
  remove_resolved block bd = (bd', Ok tt) ->
  exists k : nat,
    _blocks bd !! k = Some block
    /\ _blocks bd' = delete k (_blocks bd)
    /\ _labelled_blocks bd' = _labelled_blocks bd.
Proof.
  unfold remove_resolved.
  destruct (py_index block (_blocks bd)) as [k|e] eqn:E; [|discriminate].
  apply py_index_Ok in E.
  destruct (np_delete _ k 0) as [c0|e]; [|discriminate].
  destruct (np_delete c0 k 1) as [c1|e]; [|discriminate].
  intros [= <-]. exists k. repeat split. exact E.
Qed.

Lemma elem_of_delete_other {A : Type} (l : list A) (k : nat) (x y : A) :
  l !! k = Some y -> x ≠ y -> x ∈ l -> x ∈ delete k l.
Proof.
  intros Hk Hne Hx. apply list_elem_of_lookup in Hx as [i Hi].
  apply list_elem_of_lookup.
  destruct (decide (i < k)) as [Hlt|Hge].
  - exists i. rewrite lookup_delete_skip. unfold skip. now rewrite decide_True.
  - assert (i ≠ k) by congruence.
    exists (i - 1). rewrite lookup_delete_skip. unfold skip.
    rewrite decide_False by lia. now replace (S (i - 1)) with i by lia.
Qed.

(** X1.  On a board whose label map is consistent with its block list, a
    [remove_block] by label that returns leaves the label map consistent and
    without the entry of the label. *)
Lemma remove_block_by_label_consistent {F : Type} (σ : store F)
    (bd bd' : Board) (lbl : string) :
  labels_consistent σ bd ->
  remove_block (ByLabel lbl) bd = (bd', Ok tt) ->
  labels_consistent σ bd' /\ _labelled_blocks bd' !! lbl = None.
Proof.
  intros Hcons Hrm. rewrite remove_block_unfold in Hrm.
  unfold _get_block_by_label in Hrm.
  destruct (_labelled_blocks bd !! lbl) as [block|] eqn:El; [|discriminate].
  apply remove_resolved_Ok in Hrm as (k & Hk & Hb & Hm).
  cbn [_blocks _labelled_blocks with_labelled_blocks] in *.
  split.
  - intros l r Hl. rewrite Hm in Hl.
    apply lookup_delete_Some in Hl as [Hne Hl].
    destruct (Hcons l r Hl) as [Hin Hlab]. split; [|exact Hlab].
    rewrite Hb. apply (elem_of_delete_other _ _ _ block Hk); [|exact Hin].
    intros ->. destruct (Hcons lbl block El) as [_ Hlab']. congruence.
  - rewrite Hm. apply lookup_delete_eq.
Qed.

(** [X] removed by its label from the board that holds it alone. *)
Lemma remove_block_by_label_consistent_witness :
  labels_consistent (fun _ => X_block) X_board
  /\ exists bd' : Board,
       remove_block (ByLabel "X") X_board = (bd', Ok tt)
       /\ labels_consistent (fun _ => X_block) bd'
       /\ _labelled_blocks bd' !! "X" = None.
Proof.
  assert (Hmap : _labelled_blocks X_board = {["X" := 0]})
    by (vm_compute; reflexivity).
  assert (Hcons : labels_consistent (fun _ => X_block) X_board).
  { intros lbl r Hl. rewrite Hmap in Hl.
    apply lookup_singleton_Some in Hl as [<- <-].
    split; [apply list_elem_of_singleton|]; reflexivity. }
  assert (Hrm : remove_block (ByLabel "X") X_board
                = (fst (remove_block (ByLabel "X") X_board), Ok tt))
    by (vm_compute; reflexivity).
  split; [exact Hcons|].
  exists (fst (remove_block (ByLabel "X") X_board)).
  split; [exact Hrm|].
  exact (remove_block_by_label_consistent _ _ _ _ Hcons Hrm).
Defined.

(** C2, the failing input.  A block labelled "A" is added to the empty board
    and removed as an object: [remove_block] returns, the block list and the
    matrix are empty, and the label map still maps "A" to the block, which
    [board["A"]] goes on returning. *)
Theorem remove_block_by_object_keeps_label :
  exists bd bd' : Board,
    add_block (fun _ => new_GeneBlock 0.5%float 2 4%float "A") 0 new_Board
    = (bd, Ok tt)
    /\ _blocks bd = [0] /\ _labelled_blocks bd !! "A" = Some 0
    /\ remove_block (ByBlock 0) bd = (bd', Ok tt)
    /\ _blocks bd' = []
    /\ shape (connections bd') = (0, 0)
    /\ _labelled_blocks bd' !! "A" = Some 0
    /\ getitem bd' (ItemStr "A") = Ok 0.
Proof.
  exists (fst (add_block (fun _ => new_GeneBlock 0.5%float 2 4%float "A") 0
                 new_Board)).
  exists (fst (remove_block (ByBlock 0)
            (fst (add_block (fun _ => new_GeneBlock 0.5%float 2 4%float "A") 0
                    new_Board)))).
  repeat split; vm_compute; reflexivity.
Qed.

(** ** The synchronous step *)

Section Advance.
Context {F : Type} `{Number F}.

Lemma advance_unfold (bd : Board) (σ : store F) :
  advance bd σ
  = match np_matmul (connections bd) (sampled (_blocks bd) σ) with
    | Raise e => (latch_all (_blocks bd) σ, Raise e)
    | Ok ingoing_connections =>
        for_each (zip (_blocks bd) ingoing_connections)
          (fun '(block, ingoing_connection) =>
             call_update block ingoing_connection)
          (latch_all (_blocks bd) σ)
    end.
Proof.
  unfold advance. rewrite St_bind_unfold, mapM_call_is_active.
  rewrite St_bind_unfold. unfold lift at 1.
  destruct (np_matmul _ _); reflexivity.
Qed.

Lemma sampled_first (l : list ref) (σ : store F) (i : nat) (r : ref) :
  l !! i = Some r -> r ∉ take i l ->
  sampled l σ !! i = Some (snd (is_active (σ r))).
Proof.
  intros Hi Hr. rewrite (sampled_lookup _ _ _ _ Hi).
  now rewrite latch_all_notin.
Qed.

Lemma NoDup_lookup_notin_take (l : list ref) (i : nat) (r : ref) :
  NoDup l -> l !! i = Some r -> r ∉ take i l.
Proof.
  intros Hnd Hi Hin. apply list_elem_of_lookup in Hin as [j Hj].
  apply lookup_take_Some in Hj as [Hj Hlt].
  pose proof (NoDup_lookup _ _ _ _ Hnd Hi Hj). lia.
Qed.

Lemma sampled_nodup (l : list ref) (σ : store F) :
  NoDup l -> sampled l σ = snapshot σ l.
Proof.
  intros Hnd. apply list_eq. intros i. unfold snapshot.
  rewrite list_lookup_fmap.
  destruct (l !! i) as [r|] eqn:Hi; cbn.
  - apply sampled_first; [exact Hi|]. now apply NoDup_lookup_notin_take.
  - apply lookup_ge_None. rewrite length_sampled. now apply lookup_ge_None.
Qed.

Lemma latch_all_nodup_elem (l : list ref) (σ : store F) (r : ref) :
  NoDup l -> r ∈ l -> latch_all l σ r = fst (is_active (σ r)).
Proof.
  intros Hnd Hin. apply list_elem_of_lookup in Hin as [i Hi].
  rewrite (latch_all_nodup _ _ _ _ Hnd Hi), (latch_all_take_S _ _ _ _ Hi).
  rewrite latch_all_notin; [reflexivity|].
  now apply NoDup_lookup_notin_take.
Qed.

Lemma call_update_ok (r : ref) (s : Z) (σ : store F) :
  is_zero (time_constant (σ r)) = false ->
  call_update r s σ
  = (store_set r (set_voltage (euler_step (σ r) s (_voltage (σ r))) (σ r)) σ,
     Ok tt).
Proof.
  intros Hz. unfold call_update. now rewrite update_euler_step.
Qed.

Lemma for_each_update_nodup (l : list ref) (sigs : list Z) (σ : store F) :
  NoDup l -> length sigs = length l ->
  (forall r, r ∈ l -> is_zero (time_constant (σ r)) = false) ->
  exists σ' : store F,
    for_each (zip l sigs) (fun '(b, s) => call_update b s) σ = (σ', Ok tt)
    /\ (forall i r s, l !! i = Some r -> sigs !! i = Some s ->
          σ' r = set_voltage (euler_step (σ r) s (_voltage (σ r))) (σ r))
    /\ (forall r, r ∉ l -> σ' r = σ r).
Proof.
  revert sigs σ. induction l as [|r0 l IH]; intros sigs σ Hnd Hlen Hz.
  - exists σ. split; [reflexivity|]. split; [intros i r s Hi; discriminate|].
    reflexivity.
  - destruct sigs as [|s0 sigs]; [discriminate|].
    apply NoDup_cons in Hnd as [Hr0 Hnd]. injection Hlen as Hlen.
    cbn [zip zip_with for_each]. rewrite St_bind_unfold.
    rewrite call_update_ok by (apply Hz; left).
    set (σ2 := store_set r0 _ σ).
    destruct (IH sigs σ2 Hnd Hlen) as (σ' & Hrun & Hin & Hout).
    { intros r Hr. unfold σ2. rewrite store_set_ne by (intros ->; contradiction).
      apply Hz. now right. }
    exists σ'. split; [exact Hrun|]. split.
    + intros [|i] r s Hi Hs; cbn in Hi, Hs.
      * injection Hi as <-. injection Hs as <-.
        rewrite (Hout r0 Hr0). apply store_set_eq.
      * assert (r ≠ r0).
        { intros ->. apply Hr0. eapply list_elem_of_lookup_2; eauto. }
        rewrite (Hin i r s Hi Hs). unfold σ2. now rewrite store_set_ne.
    + intros r Hr. apply not_elem_of_cons in Hr as [Hne Hr].
      rewrite (Hout r Hr). unfold σ2. now rewrite store_set_ne.
Qed.

Lemma wrap64_id (z : Z) : in_int64 z -> wrap64 z = z.
Proof.
  unfold in_int64, int64_min, int64_max, wrap64. intros Hz.
  rewrite Z.mod_small by lia. lia.
Qed.

Lemma wrap64_in_int64 (z : Z) : in_int64 (wrap64 z).
Proof.
  unfold in_int64, int64_min, int64_max, wrap64.
  pose proof (Z.mod_pos_bound (z + 2 ^ 63) (2 ^ 64) ltac:(lia)). lia.
Qed.

Lemma abs_sum_cons (a : Z) (row : list Z) :
  abs_sum (a :: row) = (Z.abs a + abs_sum row)%Z.
Proof. reflexivity. Qed.

Lemma abs_sum_nonneg (row : list Z) : (0 <= abs_sum row)%Z.
Proof.
  induction row as [|a row IH]; [reflexivity|]. rewrite abs_sum_cons. lia.
Qed.

Lemma exact_dot_cons (a v : Z) (row x : list Z) :
  exact_dot (a :: row) (v :: x) = (a * v + exact_dot row x)%Z.
Proof. reflexivity. Qed.

(** With samples 0 and 1 the sum of a row is bounded by the sum of its
    magnitudes, and nothing wraps when that fits [int64]. *)
Lemma exact_dot_bound (row x : list Z) :
  Forall (fun v => v = 0%Z \/ v = 1%Z) x ->
  (Z.abs (exact_dot row x) <= abs_sum row)%Z.
Proof.
  intros Hx. revert row. induction Hx as [|v x Hv _ IH]; intros [|a row].
  - reflexivity.
  - pose proof (abs_sum_nonneg (a :: row)).
    change (exact_dot (a :: row) []) with 0%Z. lia.
  - reflexivity.
  - rewrite exact_dot_cons, abs_sum_cons. specialize (IH row).
    destruct Hv as [->| ->]; lia.
Qed.

Lemma dot_exact (row x : list Z) :
  Forall (fun v => v = 0%Z \/ v = 1%Z) x ->
  (abs_sum row <= int64_max)%Z ->
  dot row x = exact_dot row x.
Proof.
  intros Hx. revert row. induction Hx as [|v x Hv Hx IH]; intros [|a row] Hb;
    try reflexivity.
  rewrite abs_sum_cons in Hb. pose proof (abs_sum_nonneg row) as Hn.
  rewrite exact_dot_cons.
  change (dot (a :: row) (v :: x))
    with (int64_add (int64_mul a v) (dot row x)).
  rewrite IH by lia.
  pose proof (exact_dot_bound row x Hx) as Hd.
  unfold int64_add, int64_mul.
  assert (in_int64 (a * v)) as Hav.
  { unfold in_int64, int64_min, int64_max in *. destruct Hv as [->| ->]; lia. }
  rewrite (wrap64_id (a * v) Hav). apply wrap64_id.
  unfold in_int64, int64_min, int64_max in *. destruct Hv as [->| ->]; lia.
Qed.

Lemma np_matmul_Ok (a : ndarray) (x signal : list Z) :
  np_matmul a x = Ok signal ->
  ncols a = length x
  /\ length signal = nrows a
  /\ forall target row,
       rows a !! target = Some row -> signal !! target = Some (dot row x).
Proof.
  unfold np_matmul. destruct (decide _) as [E|]; [|discriminate].
  intros [= <-]. split; [exact E|]. split; [apply length_fmap|].
  intros target row Hrow. rewrite list_lookup_fmap. now rewrite Hrow.
Qed.

(** C1 (as amended).  [advance] first samples the blocks, then updates them.
    The first phase is [get_block_states]: it never raises, calls
    [is_active] on the blocks in board order and changes nothing but latches,
    so every voltage is still the one before the step; every sample is 0 or
    1, and a block met for the first time is sampled from its state before
    the step.  The signals are the matrix-vector product of the connections
    with these samples as [np.matmul] computes it in [int64], fixed before
    the first [update]; for a row whose magnitudes add up to at most
    [2 ^ 63 - 1] -- every row of the connection values -1, 0 and 1 -- it is
    the sum of the products, with no wrap-around.  A shape mismatch raises
    before any voltage has changed.  The second phase calls [update] with
    these signals on the blocks in order.  When every block is on the board
    once, the matrix is square and no time constant is zero, the step
    returns, and each block ends with its latch as sampled and the voltage
    of one Euler step from its voltage before the step, under a signal
    computed from the snapshot of the store before the step; every other
    object is untouched. *)
Theorem advance_two_phases (bd : Board) (σ : store F) :
  exists (σ1 : store F) (state_vector : list Z),
    get_block_states bd σ = (σ1, Ok state_vector)
    /\ length state_vector = length (_blocks bd)
    /\ Forall (fun v => v = 0%Z \/ v = 1%Z) state_vector
    /\ (forall r : ref, σ1 r = set_active (_is_active (σ1 r)) (σ r))
    /\ (forall (i : nat) (r : ref),
          _blocks bd !! i = Some r ->
          state_vector !! i
          = Some (snd (is_active
                (fst (mapM call_is_active (take i (_blocks bd)) σ) r))))
    /\ (forall (i : nat) (r : ref),
          _blocks bd !! i = Some r -> r ∉ take i (_blocks bd) ->
          state_vector !! i = Some (snd (is_active (σ r))))
    /\ match np_matmul (connections bd) state_vector with
       | Raise e => advance bd σ = (σ1, Raise e)
       | Ok signal_vector =>
           (forall (target : nat) (row : list Z),
               rows (connections bd) !! target = Some row ->
               signal_vector !! target = Some (dot row state_vector)
               /\ ((abs_sum row <= int64_max)%Z ->
                   dot row state_vector = exact_dot row state_vector))
           /\ advance bd σ
              = for_each (zip (_blocks bd) signal_vector)
                  (fun '(block, signal) => call_update block signal) σ1
       end
    /\ (NoDup (_blocks bd) ->
        shape (connections bd) = (length (_blocks bd), length (_blocks bd)) ->
        (forall r, r ∈ _blocks bd -> is_zero (time_constant (σ r)) = false) ->
        state_vector = snapshot σ (_blocks bd)
        /\ exists σ' : store F,
             advance bd σ = (σ', Ok tt)
             /\ (forall (i : nat) (r : ref) (row : list Z),
                   _blocks bd !! i = Some r ->
                   rows (connections bd) !! i = Some row ->
                   σ' r
                   = set_voltage
                       (euler_step (σ r)
                          (dot row (snapshot σ (_blocks bd)))
                          (_voltage (σ r)))
                       (fst (is_active (σ r))))
             /\ (forall r, r ∉ _blocks bd -> σ' r = σ r)).
Proof.
  exists (latch_all (_blocks bd) σ), (sampled (_blocks bd) σ).
  split; [apply mapM_call_is_active|].
  split; [apply length_sampled|].
  split; [apply sampled_bits|].
  split; [intros r; apply latch_all_fields|].
  split.
  { intros i r Hi. rewrite mapM_call_is_active. now apply sampled_lookup. }
  split; [intros i r; apply sampled_first|].
  split.
  { rewrite advance_unfold.
    destruct (np_matmul _ _) as [signal|e] eqn:E; [|reflexivity].
    split; [|reflexivity]. intros target row Hrow.
    split; [now apply (np_matmul_Ok _ _ _ E)|].
    apply dot_exact, sampled_bits. }
  intros Hnd Hshape Hz. injection Hshape as Hn Hm.
  split; [now apply sampled_nodup|].
  rewrite advance_unfold. rewrite (sampled_nodup _ _ Hnd).
  destruct (np_matmul (connections bd) (snapshot σ (_blocks bd)))
    as [signal|e] eqn:E.
  2:{ unfold np_matmul in E. unfold snapshot in E.
      rewrite length_fmap, decide_True in E by exact Hm. discriminate. }
  destruct (np_matmul_Ok _ _ _ E) as (_ & Hlen & Hsig).
  destruct (for_each_update_nodup (_blocks bd) signal
              (latch_all (_blocks bd) σ) Hnd) as (σ' & Hrun & Hin & Hout).
  { now rewrite Hlen, Hn. }
  { intros r Hr. rewrite latch_all_fields. cbn. now apply Hz. }
  exists σ'. split; [exact Hrun|]. split.
  - intros i r row Hi Hrow.
    rewrite (Hin i r _ Hi (Hsig i row Hrow)).
    rewrite (latch_all_nodup_elem _ _ _ Hnd) by (eapply list_elem_of_lookup_2; eauto).
    f_equal. now rewrite (is_active_fields (σ r)).
  - intros r Hr. rewrite (Hout r Hr). now apply latch_all_notin.
Qed.
End Advance.

(** The two-phase step on the relay: the driver is sampled active at 9 V
    before it is updated, so the driven block receives the signal 1 and is
    charged, although the driver itself drops below its threshold in this
    very step and answers 0 afterwards; updating the blocks one after the
    other on fresh samples would have discharged the driven block. *)
Lemma advance_two_phases_witness :
  exists σ' : store float,
    advance relay_board relay_store = (σ', Ok tt)
    /\ snd (is_active (σ' 0)) = 0%Z
    /\ update (relay_store 1) 1 = Ok (σ' 1)
    /\ update (relay_store 1) 0 <> Ok (σ' 1).
Proof.
  destruct (advance_two_phases relay_board relay_store)
    as (σ1 & sv & _ & _ & _ & _ & _ & _ & _ & Hsync).
  assert (Hnd : NoDup (_blocks relay_board)).
  { cbn. apply NoDup_cons. split; [|apply NoDup_singleton].
    intros Hin. apply list_elem_of_singleton in Hin. discriminate. }
  destruct (Hsync Hnd eq_refl) as (_ & σ' & Hadv & Hin & _).
  { intros r _. destruct r as [|r]; reflexivity. }
  exists σ'. split; [exact Hadv|].
  rewrite (Hin 0 0 [0; 0]%Z eq_refl eq_refl).
  rewrite (Hin 1 1 [1; 0]%Z eq_refl eq_refl).
  split; [vm_compute; reflexivity|]. split; [vm_compute; reflexivity|].
  vm_compute. discriminate.
Defined.

(** C1, counterexample.  Two active blocks are connected to a third with the
    weight [2 ^ 62] each, by two [add_connection] calls that return.  The
    sum of the products is [2 ^ 63], at or above the threshold 1 of the
    third block, but [np.matmul] wraps it to [- 2 ^ 63]: [advance] discharges
    the third block where the sum of the products charges it. *)
Lemma advance_signal_wraps :
  exists σ' : store float,
    advance heavy_board heavy_store = (σ', Ok tt)
    /\ rows (connections heavy_board) !! 2%nat
       = Some [2 ^ 62; 2 ^ 62; 0]%Z
    /\ snapshot heavy_store (_blocks heavy_board) = [1; 1; 1]%Z
    /\ exact_dot [2 ^ 62; 2 ^ 62; 0]%Z [1; 1; 1]%Z = (2 ^ 63)%Z
    /\ dot [2 ^ 62; 2 ^ 62; 0]%Z [1; 1; 1]%Z = (- 2 ^ 63)%Z
    /\ (threshhold (heavy_store 2%nat) <= 2 ^ 63)%Z
    /\ update (fst (is_active (heavy_store 2%nat))) (2 ^ 63)
       = Ok (fst (is_active (heavy_store 2%nat)))
    /\ update (fst (is_active (heavy_store 2%nat))) (- 2 ^ 63)
       = Ok (σ' 2%nat)
    /\ PrimFloat.ltb (_voltage (σ' 2%nat)) 9%float = true.
Proof.
  exists (fst (advance heavy_board heavy_store)).
  split; [vm_compute; reflexivity|].
  split; [vm_compute; reflexivity|].
  split; [vm_compute; reflexivity|].
  split; [vm_compute; reflexivity|].
  split; [vm_compute; reflexivity|].
  split; [vm_compute; discriminate|].
  split; [vm_compute; reflexivity|].
  split; vm_compute; reflexivity.
Qed.

(** ** The scenarios of the specification *)

(** [X] with a self-connection, switched on: after one [advance] the voltage
    is 9.0 and [is_active] returns 1. *)
Example scenario_saturated :
  exists (bd : Board) (σ : store float),
    add_connection (ByBlock 0) (ByBlock 0) 1 X_board = (bd, Ok tt)
    /\ advance bd (fun _ => turn_on X_block) = (σ, Ok tt)
    /\ get_voltage (σ 0) = 9%float
    /\ snd (is_active (σ 0)) = 1%Z.
Proof.
  exists (fst (add_connection (ByBlock 0) (ByBlock 0) 1 X_board)).
  exists (fst (advance (fst (add_connection (ByBlock 0) (ByBlock 0) 1 X_board))
                 (fun _ => turn_on X_block))).
  repeat split; vm_compute; reflexivity.
Qed.

(** [X] without connections, switched off: after one [advance] the voltage
    is 0.0 and [is_active] returns 0. *)
Example scenario_discharged :
  exists σ : store float,
    advance X_board (fun _ => turn_off X_block) = (σ, Ok tt)
    /\ get_voltage (σ 0) = 0%float
    /\ snd (is_active (σ 0)) = 0%Z.
Proof.
  exists (fst (advance X_board (fun _ => turn_off X_block))).
  repeat split; vm_compute; reflexivity.
Qed.

(** [X] removed by its label: the label map has no entry left and the lookup
    raises. *)
Example scenario_removed_by_label :
  exists bd : Board,
    remove_block (ByLabel "X") X_board = (bd, Ok tt)
    /\ _labelled_blocks bd !! "X" = None
    /\ getitem bd (ItemStr "X")
       = Raise (KeyError "Could not locate block with label X.").
Proof.
  exists (fst (remove_block (ByLabel "X") X_board)).
  repeat split; vm_compute; reflexivity.
Qed.

(** * Further properties *)

(** ** Looking blocks up *)

(** [l.index(x)] is the first position of [x]. *)
Lemma list_index_first (x : ref) (l : list ref) (k : nat) :
  list_index x l = Some k -> x ∉ take k l.
Proof.
  revert k. induction l as [|y l IH]; intros k; [discriminate|].
  cbn. destruct (decide (y = x)) as [->|Hne].
  - intros [= <-]. cbn. apply not_elem_of_nil.
  - destruct (list_index x l) as [j|]; [|discriminate].
    intros [= <-]. cbn. apply not_elem_of_cons. split; [congruence|].
    now apply IH.
Qed.

Lemma py_getitem_nat {A : Type} (l : list A) (i : nat) (x : A) :
  l !! i = Some x -> py_getitem l (Z.of_nat i) = Ok x.
Proof.
  intros Hi. apply lookup_lt_Some in Hi as Hlt. unfold py_getitem.
  replace (Z.of_nat i <? 0)%Z with false by (symmetry; lia).
  replace ((0 <=? Z.of_nat i) && (Z.of_nat i <? Z.of_nat (length l)))%Z
    with true by (symmetry; apply andb_true_iff; lia).
  now rewrite Nat2Z.id, Hi.
Qed.

Lemma py_getitem_negative {A : Type} (l : list A) (i : nat) (x : A) :
  l !! i = Some x ->
  py_getitem l (Z.of_nat i - Z.of_nat (length l)) = Ok x.
Proof.
  intros Hi. apply lookup_lt_Some in Hi as Hlt. unfold py_getitem.
  replace (Z.of_nat i - Z.of_nat (length l) <? 0)%Z with true
    by (symmetry; lia).
  replace (Z.of_nat i - Z.of_nat (length l) + Z.of_nat (length l))%Z
    with (Z.of_nat i) by lia.
  replace ((0 <=? Z.of_nat i) && (Z.of_nat i <? Z.of_nat (length l)))%Z
    with true by (symmetry; apply andb_true_iff; lia).
  now rewrite Nat2Z.id, Hi.
Qed.

Lemma py_getitem_out_of_range {A : Type} (l : list A) (z : Z) :
  (z < - Z.of_nat (length l) \/ Z.of_nat (length l) <= z)%Z ->
  py_getitem l z = Raise IndexError.
Proof.
  intros Hz. unfold py_getitem.
  destruct (z <? 0)%Z eqn:Eneg.
  - replace ((0 <=? z + Z.of_nat (length l))
             && (z + Z.of_nat (length l) <? Z.of_nat (length l)))%Z
      with false; [reflexivity|].
    symmetry. apply andb_false_iff. lia.
  - replace ((0 <=? z) && (z <? Z.of_nat (length l)))%Z with false;
      [reflexivity|].
    symmetry. apply andb_false_iff. lia.
Qed.

Lemma getitem_block_elem (bd : Board) (b : ref) :
  b ∈ _blocks bd -> getitem bd (ItemBlock b) = Ok b.
Proof.
  intros Hb. cbn. unfold py_index.
  destruct (list_index_elem b _ Hb) as (k & -> & Hk).
  now apply py_getitem_nat.
Qed.

Lemma getitem_label_iff (bd : Board) (lbl : string) (b : ref) :
  getitem bd (ItemStr lbl) = Ok b <-> _labelled_blocks bd !! lbl = Some b.
Proof.
  cbn. unfold _get_block_by_label.
  destruct (_labelled_blocks bd !! lbl); split; congruence.
Qed.

(** X2.  [board[x]]: a block object on the board is returned as it is and one
    that is not raises the [ValueError] of [list.index]; a position [i] and
    the negative position [i - len] both return the block at [i]; an int
    outside [-len, len) raises [IndexError]; a label returns exactly what the
    label map holds for it.  Nothing is looked up in the matrix. *)
Theorem getitem_lookup (bd : Board) :
  (forall b : ref, b ∈ _blocks bd -> getitem bd (ItemBlock b) = Ok b)
  /\ (forall b : ref, b ∉ _blocks bd ->
        getitem bd (ItemBlock b) = Raise ValueError)
  /\ (forall (i : nat) (b : ref),
        _blocks bd !! i = Some b ->
        getitem bd (ItemInt (Z.of_nat i)) = Ok b
        /\ getitem bd (ItemInt (Z.of_nat i - Z.of_nat (length (_blocks bd))))
           = Ok b)
  /\ (forall z : Z,
        (z < - Z.of_nat (length (_blocks bd))
         \/ Z.of_nat (length (_blocks bd)) <= z)%Z ->
        getitem bd (ItemInt z) = Raise IndexError)
  /\ (forall (lbl : string) (b : ref),
        getitem bd (ItemStr lbl) = Ok b <-> _labelled_blocks bd !! lbl = Some b).
Proof.
  split; [|split; [|split; [|split]]].
  - intros b. apply getitem_block_elem.
  - intros b Hb. cbn. now rewrite py_index_notin.
  - intros i b Hi. cbn. split.
    + now apply py_getitem_nat.
    + now apply py_getitem_negative.
  - intros z Hz. cbn. now apply py_getitem_out_of_range.
  - intros lbl b. apply getitem_label_iff.
Qed.

(** ** [add_block] and the label map *)

Section AddBlockLabels.
Context {F : Type} `{Number F}.

Lemma add_block_labelled (σ : store F) (block : ref) (bd : Board) :
  _labelled_blocks (fst (add_block σ block bd))
  = if bool_decide (get_label (σ block) ≠ "")
    then <[get_label (σ block) := block]> (_labelled_blocks bd)
    else _labelled_blocks bd.
Proof.
  rewrite add_block_eq. cbn zeta.
  now destruct (bool_decide (get_label (σ block) ≠ "")).
Qed.

Lemma add_block_consistent (σ : store F) (block : ref) (bd : Board) :
  labels_consistent σ bd -> labels_consistent σ (fst (add_block σ block bd)).
Proof.
  intros Hcons lbl r Hl.
  destruct (add_block_fields σ block bd) as (_ & Hb & _).
  rewrite Hb. rewrite add_block_labelled in Hl.
  destruct (bool_decide (get_label (σ block) ≠ "")).
  - apply lookup_insert_Some in Hl as [[<- <-]|[Hne Hl]].
    + split; [set_solver|reflexivity].
    + destruct (Hcons lbl r Hl) as [Hin Hlab]. split; [set_solver|exact Hlab].
  - destruct (Hcons lbl r Hl) as [Hin Hlab]. split; [set_solver|exact Hlab].
Qed.

(** X3.  [add_block] never raises and puts the block last.  Afterwards
    [board[block]] and [board[-1]] return the block; if its label is not
    empty, [board[label]] returns it, whatever block carried that label
    before; if its label is empty the label map is left as it was.  No other
    label is touched, and a label map that was consistent with the block list
    stays so. *)
Theorem add_block_registers_label (σ : store F) (block : ref) (bd : Board) :
  exists bd' : Board,
    add_block σ block bd = (bd', Ok tt)
    /\ _blocks bd' = _blocks bd ++ [block]
    /\ getitem bd' (ItemBlock block) = Ok block
    /\ getitem bd' (ItemInt (-1)) = Ok block
    /\ (get_label (σ block) ≠ "" ->
        getitem bd' (ItemStr (get_label (σ block))) = Ok block)
    /\ (get_label (σ block) = "" -> _labelled_blocks bd' = _labelled_blocks bd)
    /\ (forall lbl : string,
          lbl ≠ get_label (σ block) ->
          _labelled_blocks bd' !! lbl = _labelled_blocks bd !! lbl)
    /\ (labels_consistent σ bd -> labels_consistent σ bd').
Proof.
  destruct (add_block_fields σ block bd) as (Hok & Hb & _).
  pose proof (add_block_labelled σ block bd) as Hm.
  exists (fst (add_block σ block bd)).
  split.
  { rewrite (surjective_pairing (add_block σ block bd)) at 1. now rewrite Hok. }
  split; [exact Hb|].
  split.
  { apply getitem_block_elem. rewrite Hb. set_solver. }
  split.
  { assert (Hlast : _blocks (fst (add_block σ block bd))
                    !! length (_blocks bd) = Some block).
    { rewrite Hb. rewrite lookup_app_r by lia.
      now rewrite Nat.sub_diag. }
    pose proof (py_getitem_negative _ _ _ Hlast) as Hneg.
    change (py_getitem (_blocks ?b) ?z) with (getitem b (ItemInt z)) in Hneg.
    rewrite Hb, length_app in Hneg. cbn [length] in Hneg.
    replace (Z.of_nat (length (_blocks bd))
             - Z.of_nat (length (_blocks bd) + 1))%Z with (-1)%Z in Hneg by lia.
    exact Hneg. }
  split.
  { intros Hl. apply getitem_label_iff.
    rewrite Hm, bool_decide_true by exact Hl. apply lookup_insert_eq. }
  split.
  { intros Hl. rewrite Hm, bool_decide_false; [reflexivity|]. now intros []. }
  split.
  { intros lbl Hne. rewrite Hm.
    destruct (bool_decide (get_label (σ block) ≠ "")); [|reflexivity].
    now apply lookup_insert_ne. }
  now apply add_block_consistent.
Qed.
End AddBlockLabels.

(** ** How [remove_block] fails, and what it removes *)

Lemma remove_resolved_notin (block : ref) (bd : Board) :
  block ∉ _blocks bd -> remove_resolved block bd = (bd, Raise ValueError).
Proof. intros Hb. unfold remove_resolved. now rewrite py_index_notin. Qed.

(** Whatever happens after the index is found, the block at the index is gone
    from the list and the label map is as it was. *)
Lemma remove_resolved_found (block : ref) (bd : Board) (k : nat) :
  py_index block (_blocks bd) = Ok k ->
  _blocks (fst (remove_resolved block bd)) = delete k (_blocks bd)
  /\ _labelled_blocks (fst (remove_resolved block bd)) = _labelled_blocks bd.
Proof.
  intros E. unfold remove_resolved. rewrite E. cbn zeta.
  destruct (np_delete _ k 0) as [c0|e]; [|now split].
  destruct (np_delete c0 k 1) as [c1|e]; now split.
Qed.

Lemma remove_resolved_raise_square (block : ref) (bd bd' : Board) (e : exn) :
  square bd -> remove_resolved block bd = (bd', Raise e) ->
  bd' = bd /\ e = ValueError /\ block ∉ _blocks bd.
Proof.
  intros Hsq E. pose proof (remove_resolved_square block bd Hsq) as Hrm.
  destruct (py_index block (_blocks bd)) as [k|e'] eqn:Ei.
  - destruct Hrm as [_ Hrm]. congruence.
  - rewrite Hrm in E. injection E as <- <-.
    split; [reflexivity|]. split; [now apply py_index_raise in Ei|].
    intros Hin. destruct (list_index_elem _ _ Hin) as (k & Hk & _).
    unfold py_index in Ei. now rewrite Hk in Ei.
Qed.

(** X4.  [remove_block] of a block object that is not on the board raises the
    [ValueError] of [list.index] and changes nothing.  Called with a label
    whose block is no longer on the board it has already deleted the label
    entry when that [ValueError] is raised.  On a board with a square matrix a
    [remove_block] that raises leaves the block list and the matrix as they
    were. *)
Theorem remove_block_failure_modes (bd : Board) :
  (forall b : ref,
      b ∉ _blocks bd -> remove_block (ByBlock b) bd = (bd, Raise ValueError))
  /\ (forall (lbl : string) (b : ref),
        _labelled_blocks bd !! lbl = Some b -> b ∉ _blocks bd ->
        remove_block (ByLabel lbl) bd
        = (with_labelled_blocks (delete lbl (_labelled_blocks bd)) bd,
           Raise ValueError))
  /\ (forall (arg : block_or_label) (bd' : Board) (e : exn),
        square bd -> remove_block arg bd = (bd', Raise e) ->
        _blocks bd' = _blocks bd /\ connections bd' = connections bd).
Proof.
  split; [|split].
  - intros b Hb. rewrite remove_block_unfold. now apply remove_resolved_notin.
  - intros lbl b Hl Hb. rewrite remove_block_unfold.
    unfold _get_block_by_label. rewrite Hl. now apply remove_resolved_notin.
  - intros arg bd' e Hsq E. rewrite remove_block_unfold in E.
    destruct arg as [lbl|b].
    + destruct (_get_block_by_label bd lbl) as [block|e'].
      * apply remove_resolved_raise_square in E as (-> & _ & _);
          [now split|now apply with_labelled_blocks_square].
      * injection E as <- _. now split.
    + apply remove_resolved_raise_square in E as (-> & _ & _);
        [now split|exact Hsq].
Qed.

(** The C2 board: the label "A" is left behind by a removal by object; the
    removal by label then deletes it and raises. *)
Lemma remove_block_failure_modes_witness :
  exists bd : Board,
    remove_block (ByBlock 0) X_board = (bd, Ok tt)
    /\ _labelled_blocks bd !! "X" = Some 0
    /\ remove_block (ByLabel "X") bd
       = (with_labelled_blocks (delete "X" (_labelled_blocks bd)) bd,
          Raise ValueError).
Proof.
  exists (fst (remove_block (ByBlock 0) X_board)).
  assert (Hl : _labelled_blocks (fst (remove_block (ByBlock 0) X_board)) !! "X"
               = Some 0) by (vm_compute; reflexivity).
  split; [vm_compute; reflexivity|]. split; [exact Hl|].
  refine (proj1 (proj2 (remove_block_failure_modes _)) "X" 0 Hl _).
  vm_compute. apply not_elem_of_nil.
Defined.

Lemma filter_other_notin (l : list ref) (b : ref) :
  b ∉ l -> filter (fun r => r ≠ b) l = l.
Proof.
  induction l as [|y l IH]; intros Hb; [reflexivity|].
  apply not_elem_of_cons in Hb as [Hne Hb].
  rewrite filter_cons_True by congruence. now rewrite IH.
Qed.

Lemma delete_nodup_filter (l : list ref) (k : nat) (b : ref) :
  NoDup l -> l !! k = Some b ->
  delete k l = filter (fun r => r ≠ b) l.
Proof.
  revert k. induction l as [|y l IH]; intros k Hnd Hk; [discriminate|].
  apply NoDup_cons in Hnd as [Hy Hnd]. destruct k as [|k]; cbn in Hk.
  - injection Hk as ->. rewrite filter_cons_False by (intros ?; congruence).
    change (delete 0 (b :: l)) with l.
    symmetry. now apply filter_other_notin.
  - rewrite filter_cons_True.
    + change (delete (S k) (y :: l)) with (y :: delete k l).
      f_equal. now apply IH.
    + intros ->. apply Hy. eapply list_elem_of_lookup_2; eauto.
Qed.

(** X5.  On a board with a square matrix, [remove_block] of a block object
    that is on the board returns; one occurrence of the block, the first, is
    gone, the label map is untouched, and the matrix is square again.  If the
    block was on the board once, it is on the board no more and the other
    blocks keep their order. *)
Theorem remove_block_removes_first (bd : Board) (b : ref) :
  square bd -> b ∈ _blocks bd ->
  exists (bd' : Board) (k : nat),
    remove_block (ByBlock b) bd = (bd', Ok tt)
    /\ list_index b (_blocks bd) = Some k
    /\ _blocks bd' = delete k (_blocks bd)
    /\ length (_blocks bd') + 1 = length (_blocks bd)
    /\ _labelled_blocks bd' = _labelled_blocks bd
    /\ square bd'
    /\ (NoDup (_blocks bd) ->
        (b ∉ _blocks bd')
        /\ _blocks bd' = filter (fun r => r ≠ b) (_blocks bd)
        /\ NoDup (_blocks bd')).
Proof.
  intros Hsq Hb. destruct (list_index_elem b _ Hb) as (k & Hk & Hlook).
  pose proof (remove_resolved_square b bd Hsq) as Hrm.
  pose proof (remove_resolved_keeps_square b bd Hsq) as Hsq'.
  unfold py_index in Hrm. rewrite Hk in Hrm. destruct Hrm as [_ Hrm].
  rewrite Hrm in Hsq'. cbn [fst] in Hsq'.
  eexists. exists k. rewrite remove_block_unfold.
  split; [exact Hrm|]. split; [exact Hk|].
  cbn [_blocks _labelled_blocks with_connections with_blocks].
  split; [reflexivity|]. split.
  { rewrite length_delete by (now apply lookup_lt_is_Some_2, lookup_lt_Some with b).
    apply lookup_lt_Some in Hlook. lia. }
  split; [reflexivity|]. split; [exact Hsq'|].
  intros Hnd. rewrite (delete_nodup_filter _ _ _ Hnd Hlook).
  split; [|split; [reflexivity|now apply NoDup_filter]].
  intros Hin. apply list_elem_of_filter in Hin as [Hne _]. now apply Hne.
Qed.

Lemma remove_block_removes_first_witness :
  exists bd' : Board,
    remove_block (ByBlock 1) mutual_board = (bd', Ok tt)
    /\ _blocks bd' = [0]
    /\ square bd'.
Proof.
  assert (Hsq : square mutual_board).
  { split; [|reflexivity]. repeat constructor. }
  assert (Hin : 1 ∈ _blocks mutual_board) by (cbn; set_solver).
  destruct (remove_block_removes_first mutual_board 1 Hsq Hin)
    as (bd' & k & Hrm & Hk & Hb & _ & _ & Hsq' & _).
  exists bd'. split; [exact Hrm|]. split; [|exact Hsq'].
  injection Hk as <-. exact Hb.
Defined.

(** ** Adding and removing a block again *)

Lemma list_index_app_new (l : list ref) (b : ref) :
  b ∉ l -> list_index b (l ++ [b]) = Some (length l).
Proof.
  induction l as [|y l IH]; intros Hb; cbn.
  - now rewrite decide_True.
  - apply not_elem_of_cons in Hb as [Hne Hb].
    rewrite decide_False by congruence. now rewrite IH.
Qed.

Lemma delete_app_last {A : Type} (l : list A) (x : A) :
  delete (length l) (l ++ [x]) = l.
Proof.
  induction l as [|y l IH]; [reflexivity|].
  change (y :: delete (length l) (l ++ [x]) = y :: l). now rewrite IH.
Qed.

Lemma delete_padded_rows (rs : list (list Z)) (n : nat) :
  Forall (fun row => length row = n) rs ->
  delete n <$> ((fun row => row ++ [0%Z]) <$> rs) = rs.
Proof.
  induction 1 as [|row rs Hrow _ IH]; [reflexivity|].
  cbn [fmap list_fmap]. f_equal; [|exact IH].
  rewrite <- Hrow. apply delete_app_last.
Qed.

Lemma without_grown (a : ndarray) :
  rectangular a -> nrows a = ncols a ->
  without (nrows a) (assign_top_left (np_zeros (nrows a + 1) (ncols a + 1)) a)
  = a.
Proof.
  intros Hr Hsq. unfold without. rewrite (grown_rows a Hr).
  cbn [ncols assign_top_left np_zeros].
  unfold nrows at 2.
  rewrite <- (length_fmap (fun row => row ++ [0%Z]) (rows a)).
  rewrite delete_app_last, Hsq, (delete_padded_rows _ _ Hr).
  destruct a as [c rs]. cbn. f_equal. lia.
Qed.

Section RoundTrip.
Context {F : Type} `{Number F}.

Lemma add_then_remove_resolved (σ : store F) (block : ref) (bd : Board)
    (m : gmap string ref) :
  square bd -> block ∉ _blocks bd ->
  remove_resolved block
    (with_labelled_blocks m
       (with_connections
          (assign_top_left
             (np_zeros (nrows (connections bd) + 1)
                (ncols (connections bd) + 1)) (connections bd))
          (with_blocks (_blocks bd ++ [block]) bd)))
  = (with_labelled_blocks m bd, Ok tt).
Proof.
  intros [Hr Hs] Hb. injection Hs as Hn Hm.
  unfold remove_resolved, py_index.
  cbn [_blocks with_labelled_blocks with_connections with_blocks connections].
  rewrite (list_index_app_new _ _ Hb). cbn zeta.
  cbn [_blocks with_labelled_blocks with_connections with_blocks connections].
  destruct (np_delete_both
              (assign_top_left
                 (np_zeros (nrows (connections bd) + 1)
                    (ncols (connections bd) + 1)) (connections bd))
              (length (_blocks bd))) as (c0 & -> & ->).
  { pose proof (grown_shape _ Hr) as Hsh. unfold shape in Hsh.
    injection Hsh as Hn'. rewrite Hn'. lia. }
  { cbn. lia. }
  rewrite delete_app_last, <- Hn, (without_grown _ Hr) by lia.
  destruct bd. reflexivity.
Qed.

(** X6.  On a board with a square matrix, adding a block that is not yet on
    the board and removing it again restores the block list and the matrix.
    Removed as an object, a labelled block leaves its label entry behind;
    removed by its label, when that label was not in use before, the board is
    exactly the board before the two calls. *)
Theorem add_then_remove_restores (σ : store F) (block : ref) (bd : Board) :
  square bd -> block ∉ _blocks bd ->
  exists bd1 : Board,
    add_block σ block bd = (bd1, Ok tt)
    /\ (exists bd2 : Board,
          remove_block (ByBlock block) bd1 = (bd2, Ok tt)
          /\ _blocks bd2 = _blocks bd
          /\ connections bd2 = connections bd
          /\ _labelled_blocks bd2 = _labelled_blocks bd1)
    /\ (get_label (σ block) = "" ->
        remove_block (ByBlock block) bd1 = (bd, Ok tt))
    /\ (get_label (σ block) ≠ "" ->
        _labelled_blocks bd !! get_label (σ block) = None ->
        remove_block (ByLabel (get_label (σ block))) bd1 = (bd, Ok tt)).
Proof.
  intros Hsq Hb. eexists. split; [apply add_block_eq|]. cbn zeta.
  split; [|split].
  - destruct (bool_decide (get_label (σ block) ≠ "")).
    + eexists. rewrite remove_block_unfold.
      split; [now apply add_then_remove_resolved|]. repeat split.
    + eexists. rewrite remove_block_unfold.
      split; [now apply (add_then_remove_resolved σ _ _ (_labelled_blocks bd))|].
      repeat split.
  - intros Hl. rewrite bool_decide_false by (now intros []).
    rewrite remove_block_unfold.
    etrans; [exact (add_then_remove_resolved σ block bd (_labelled_blocks bd)
                      Hsq Hb)|].
    now destruct bd.
  - intros Hl Hfree. rewrite bool_decide_true by exact Hl.
    rewrite remove_block_unfold. unfold _get_block_by_label.
    cbn [_labelled_blocks with_labelled_blocks]. rewrite lookup_insert_eq.
    rewrite delete_insert_eq, (delete_id _ _ Hfree).
    etrans; [exact (add_then_remove_resolved σ block bd (_labelled_blocks bd)
                      Hsq Hb)|].
    now destruct bd.
Qed.
End RoundTrip.

Lemma add_then_remove_restores_witness :
  remove_block (ByLabel "X") X_board = (new_Board, Ok tt).
Proof.
  assert (Hsq : square new_Board) by exact new_Board_square.
  assert (Hb : 0 ∉ _blocks new_Board) by apply not_elem_of_nil.
  destruct (add_then_remove_restores (fun _ => X_block) 0 new_Board Hsq Hb)
    as (bd1 & Hadd & _ & _ & Hlabel).
  assert (E : bd1 = X_board).
  { unfold X_board. now rewrite Hadd. }
  rewrite <- E. apply Hlabel; [discriminate|reflexivity].
Defined.

(** ** The label map along a sequence of calls *)

Lemma remove_by_label_consistent_any {F : Type} (σ : store F) (bd : Board)
    (lbl : string) :
  labels_consistent σ bd ->
  labels_consistent σ (fst (remove_block (ByLabel lbl) bd)).
Proof.
  intros Hcons. rewrite remove_block_unfold. unfold _get_block_by_label.
  destruct (_labelled_blocks bd !! lbl) as [block|] eqn:El; [|exact Hcons].
  destruct (Hcons lbl block El) as [Hin Hlab].
  destruct (list_index_elem _ _ Hin) as (k & Hk & Hlook).
  destruct (remove_resolved_found block
              (with_labelled_blocks (delete lbl (_labelled_blocks bd)) bd) k)
    as [Hb Hm].
  { unfold py_index. cbn [_blocks with_labelled_blocks]. now rewrite Hk. }
  cbn [_blocks _labelled_blocks with_labelled_blocks] in Hb, Hm.
  intros l r Hl. rewrite Hm in Hl.
  apply lookup_delete_Some in Hl as [Hne Hl].
  destruct (Hcons l r Hl) as [Hin' Hlab']. split; [|exact Hlab'].
  rewrite Hb. apply (elem_of_delete_other _ _ _ block Hlook); [|exact Hin'].
  intros ->. congruence.
Qed.

Lemma add_connection_keeps_labels (source target : block_or_label) (value : Z)
    (bd : Board) :
  _blocks (fst (add_connection source target value bd)) = _blocks bd
  /\ _labelled_blocks (fst (add_connection source target value bd))
     = _labelled_blocks bd.
Proof.
  rewrite add_connection_unfold.
  repeat match goal with
    | |- context [match ?x with Ok _ => _ | Raise _ => _ end] => destruct x
    end; now split.
Qed.

(** X7.  Starting from the empty board, after any sequence of [add_block]
    calls that read the labels of one store, [remove_block] calls by label
    and [add_connection] calls, raising or not, every entry of the label map
    is a block that is on the board and carries that label. *)
Theorem label_map_stays_consistent {F : Type} `{Number F} (σ : store F)
    (calls : list (@call F)) :
  Forall (by_label_only σ) calls ->
  labels_consistent σ (run calls new_Board).
Proof.
  assert (Hgen : forall bd, labels_consistent σ bd ->
            Forall (by_label_only σ) calls ->
            labels_consistent σ (run calls bd)).
  { induction calls as [|c calls IH]; intros bd Hcons Hall; [exact Hcons|].
    apply Forall_cons in Hall as [Hc Hall]. cbn. apply IH; [|exact Hall].
    destruct c as [σ' block|[lbl|b]|source target value]; cbn in Hc |- *.
    - subst σ'. now apply add_block_consistent.
    - now apply remove_by_label_consistent_any.
    - contradiction.
    - destruct (add_connection_keeps_labels source target value bd)
        as [Hb Hm].
      intros l r Hl. rewrite Hb. rewrite Hm in Hl. now apply Hcons. }
  apply Hgen. intros l r Hl. cbn in Hl. now rewrite lookup_empty in Hl.
Qed.

Lemma label_map_stays_consistent_witness :
  labels_consistent (fun _ => X_block)
    (run [AddBlock (fun _ => X_block) 0;
          AddConnection (ByLabel "X") (ByLabel "X") 1;
          RemoveBlock (ByLabel "X");
          RemoveBlock (ByLabel "X")] new_Board).
Proof.
  apply label_map_stays_consistent.
  repeat (apply Forall_cons; split); try apply Forall_nil; cbn; auto.
Defined.

(** ** [add_blocks] *)

Lemma replicate_snoc {A : Type} (n : nat) (x : A) :
  replicate n x ++ [x] = replicate (S n) x.
Proof. induction n as [|n IH]; cbn; [reflexivity|now rewrite IH]. Qed.

Lemma grown_zeros (n : nat) :
  assign_top_left (np_zeros (nrows (np_zeros n n) + 1) (ncols (np_zeros n n) + 1))
    (np_zeros n n)
  = np_zeros (n + 1) (n + 1).
Proof.
  assert (Hr : rectangular (np_zeros n n)).
  { unfold rectangular. cbn. apply Forall_replicate, length_replicate. }
  pose proof (grown_rows _ Hr) as E.
  transitivity
    {| ncols := n + 1;
       rows := rows (assign_top_left
                       (np_zeros (nrows (np_zeros n n) + 1)
                          (ncols (np_zeros n n) + 1)) (np_zeros n n)) |};
    [reflexivity|].
  rewrite E. unfold np_zeros. cbn [rows ncols]. f_equal.
  rewrite fmap_replicate.
  change (replicate n 0%Z ++ [0%Z]) with (replicate n 0%Z ++ replicate 1 0%Z).
  rewrite <- replicate_add, replicate_snoc. now rewrite Nat.add_1_r.
Qed.

Section AddBlocks.
Context {F : Type} `{Number F}.

Lemma add_block_Ok (σ : store F) (block : ref) (bd : Board) :
  add_block σ block bd = (fst (add_block σ block bd), Ok tt).
Proof.
  destruct (add_block_fields σ block bd) as (Hok & _).
  rewrite (surjective_pairing (add_block σ block bd)) at 1. now rewrite Hok.
Qed.

Lemma add_blocks_cons (σ : store F) (block : ref) (blocks : list ref)
    (bd : Board) :
  add_blocks σ (block :: blocks) bd
  = add_blocks σ blocks (fst (add_block σ block bd)).
Proof.
  unfold add_blocks. cbn [for_each]. rewrite St_bind_unfold.
  now rewrite add_block_Ok.
Qed.

Lemma add_blocks_Ok (σ : store F) (blocks : list ref) (bd : Board) :
  add_blocks σ blocks bd = (fst (add_blocks σ blocks bd), Ok tt).
Proof.
  revert bd. induction blocks as [|b blocks IH]; intros bd; [reflexivity|].
  rewrite add_blocks_cons. apply IH.
Qed.

Lemma add_blocks_app (σ : store F) (l1 l2 : list ref) (bd : Board) :
  add_blocks σ (l1 ++ l2) bd = add_blocks σ l2 (fst (add_blocks σ l1 bd)).
Proof.
  revert bd. induction l1 as [|b l1 IH]; intros bd; [reflexivity|].
  cbn [app]. rewrite !add_blocks_cons. apply IH.
Qed.

Lemma add_blocks_blocks (σ : store F) (blocks : list ref) (bd : Board) :
  _blocks (fst (add_blocks σ blocks bd)) = _blocks bd ++ blocks.
Proof.
  revert bd. induction blocks as [|b blocks IH]; intros bd.
  - cbn. now rewrite app_nil_r.
  - rewrite add_blocks_cons, IH.
    destruct (add_block_fields σ b bd) as (_ & -> & _).
    now rewrite <- app_assoc.
Qed.

Lemma add_blocks_square (σ : store F) (blocks : list ref) (bd : Board) :
  square bd -> square (fst (add_blocks σ blocks bd)).
Proof.
  revert bd. induction blocks as [|b blocks IH]; intros bd Hsq; [exact Hsq|].
  rewrite add_blocks_cons. now apply IH, add_block_square.
Qed.

Lemma add_blocks_consistent (σ : store F) (blocks : list ref) (bd : Board) :
  labels_consistent σ bd ->
  labels_consistent σ (fst (add_blocks σ blocks bd)).
Proof.
  revert bd. induction blocks as [|b blocks IH]; intros bd Hc; [exact Hc|].
  rewrite add_blocks_cons. now apply IH, add_block_consistent.
Qed.

Lemma add_blocks_entries (σ : store F) (blocks : list ref) (bd : Board) :
  square bd ->
  forall i j : nat,
    i < length (_blocks bd) + length blocks ->
    j < length (_blocks bd) + length blocks ->
    entry (connections (fst (add_blocks σ blocks bd))) i j
    = if decide (i < length (_blocks bd) /\ j < length (_blocks bd))
      then entry (connections bd) i j else Some 0%Z.
Proof.
  revert bd. induction blocks as [|b blocks IH]; intros bd Hsq i j Hi Hj.
  - cbn in *. rewrite decide_True by lia. reflexivity.
  - rewrite add_blocks_cons.
    pose proof (add_block_square σ b bd Hsq) as Hsq1.
    destruct (add_block_fields σ b bd) as (_ & Hb & Hc).
    cbn [length] in Hi, Hj.
    rewrite (IH _ Hsq1) by (rewrite Hb, length_app; cbn; lia).
    rewrite Hb, length_app. cbn [length].
    destruct Hsq as [Hr Hs]. injection Hs as Hn Hm.
    destruct (decide (i < length (_blocks bd) + 1
                      /\ j < length (_blocks bd) + 1)) as [[Hi1 Hj1]|Hout].
    + rewrite Hc.
      destruct (decide (i < length (_blocks bd) /\ j < length (_blocks bd)))
        as [[Hi0 Hj0]|Hnew].
      * apply grown_entry_old; [exact Hr|lia..].
      * destruct (decide (j = length (_blocks bd))) as [->|Hjn].
        -- rewrite <- Hm.
           apply (grown_entry_new (connections bd) i Hr); lia.
        -- assert (i = length (_blocks bd)) as -> by lia.
           rewrite <- Hn.
           apply (grown_entry_new (connections bd) j Hr); lia.
    + rewrite decide_False by lia. reflexivity.
Qed.

Lemma add_blocks_zeros (σ : store F) (blocks : list ref) (bd : Board) (n : nat) :
  connections bd = np_zeros n n ->
  connections (fst (add_blocks σ blocks bd))
  = np_zeros (n + length blocks) (n + length blocks).
Proof.
  revert bd n. induction blocks as [|b blocks IH]; intros bd n Hc.
  - cbn. now rewrite Nat.add_0_r.
  - rewrite add_blocks_cons. cbn [length].
    replace (n + S (length blocks)) with (n + 1 + length blocks) by lia.
    apply IH. destruct (add_block_fields σ b bd) as (_ & _ & ->).
    rewrite Hc. apply grown_zeros.
Qed.

(** X8.  [add_blocks] never raises and appends the blocks in order; it is
    [add_blocks] of a first part followed by [add_blocks] of the rest.  On a
    board with a square matrix it leaves a square matrix in which every old
    entry is where it was and every entry of a new row or column is zero, and
    a consistent label map stays consistent.  On the empty board it leaves
    exactly the given blocks and the zero matrix of their number. *)
Theorem add_blocks_appends (σ : store F) (blocks : list ref) (bd : Board) :
  exists bd' : Board,
    add_blocks σ blocks bd = (bd', Ok tt)
    /\ _blocks bd' = _blocks bd ++ blocks
    /\ (forall l1 l2 : list ref,
          blocks = l1 ++ l2 ->
          add_blocks σ l2 (fst (add_blocks σ l1 bd)) = (bd', Ok tt))
    /\ (square bd ->
        square bd'
        /\ forall i j : nat,
             i < length (_blocks bd') -> j < length (_blocks bd') ->
             entry (connections bd') i j
             = if decide (i < length (_blocks bd) /\ j < length (_blocks bd))
               then entry (connections bd) i j else Some 0%Z)
    /\ (labels_consistent σ bd -> labels_consistent σ bd')
    /\ (bd = new_Board ->
        _blocks bd' = blocks
        /\ connections bd' = np_zeros (length blocks) (length blocks)).
Proof.
  exists (fst (add_blocks σ blocks bd)).
  split; [apply add_blocks_Ok|]. split; [apply add_blocks_blocks|].
  split.
  { intros l1 l2 ->. rewrite <- add_blocks_app. apply add_blocks_Ok. }
  split.
  { intros Hsq. split; [now apply add_blocks_square|].
    intros i j. rewrite add_blocks_blocks, length_app.
    now apply add_blocks_entries. }
  split; [apply add_blocks_consistent|].
  intros ->. split.
  - now rewrite add_blocks_blocks.
  - now apply (add_blocks_zeros σ blocks new_Board 0).
Qed.
End AddBlocks.

(** ** [add_connection] and [remove_connection] *)

Lemma np_setitem_entry (a c : ndarray) (i j : nat) (value : Z) :
  rectangular a ->
  np_setitem a i j value = Ok c ->
  forall i' j' : nat,
    entry c i' j'
    = if decide (i' = i /\ j' = j) then Some value else entry a i' j'.
Proof.
  intros Hr Hset. apply np_setitem_inv in Hset as (Hi & Hj & _ & ->).
  intros i' j'. unfold entry. cbn [rows].
  destruct (decide (i' = i)) as [->|Hne].
  - rewrite list_lookup_alter_eq.
    destruct (lookup_lt_is_Some_2 (rows a) i Hi) as [row Hrow].
    rewrite Hrow. cbn.
    assert (length row = ncols a) as Hlen.
    { unfold rectangular in Hr. rewrite Forall_lookup in Hr. exact (Hr i row Hrow). }
    destruct (decide (j' = j)) as [->|Hnj].
    + rewrite decide_True by done. apply list_lookup_insert_eq. lia.
    + rewrite decide_False by (intros [_ ?]; done).
      now apply list_lookup_insert_ne.
  - rewrite decide_False by (intros [? _]; done).
    now rewrite list_lookup_alter_ne.
Qed.

Lemma np_setitem_twice (a c : ndarray) (i j : nat) (v1 v2 : Z) :
  np_setitem a i j v1 = Ok c -> np_setitem c i j v2 = np_setitem a i j v2.
Proof.
  intros Hset. apply np_setitem_inv in Hset as (Hi & Hj & _ & ->).
  unfold np_setitem, nrows. cbn [rows ncols]. rewrite length_alter.
  fold (nrows a). rewrite !(decide_True (P := i < nrows a ∧ j < ncols a)) by auto.
  destruct (decide (in_int64 v2)); [|reflexivity]. f_equal. f_equal.
  rewrite list_alter_alter_eq. apply list_alter_ext; [|reflexivity].
  intros row _. cbn. apply list_insert_insert_eq.
Qed.

Lemma np_setitem_commute (a c c' : ndarray) (i j i' j' : nat) (v v' : Z) :
  (i, j) <> (i', j') ->
  np_setitem a i j v = Ok c -> np_setitem a i' j' v' = Ok c' ->
  np_setitem c i' j' v' = np_setitem c' i j v
  /\ exists d : ndarray, np_setitem c i' j' v' = Ok d.
Proof.
  intros Hne Hset Hset'.
  apply np_setitem_inv in Hset as (Hi & Hj & Hv & ->).
  apply np_setitem_inv in Hset' as (Hi' & Hj' & Hv' & ->).
  rewrite !np_setitem_intro
    by (try assumption; unfold nrows; cbn [rows ncols];
        rewrite ?length_alter; assumption).
  cbn [rows ncols]. split; [|eauto]. f_equal. f_equal.
  destruct (decide (i' = i)) as [->|Hii].
  - rewrite !list_alter_alter_eq. apply list_alter_ext; [|reflexivity].
    intros row _. cbn. apply list_insert_insert_ne. congruence.
  - now apply list_alter_alter_ne.
Qed.

Lemma np_setitem_raise (a c : ndarray) (i j : nat) (v : Z) (e : exn) :
  shape c = shape a ->
  np_setitem a i j v = Raise e -> np_setitem c i j v = Raise e.
Proof.
  unfold np_setitem, shape. intros [= -> ->].
  destruct (decide _); [|trivial]. now destruct (decide _).
Qed.

Lemma resolve_with_connections (c : ndarray) (bd : Board)
    (arg : block_or_label) :
  resolve (with_connections c bd) arg = resolve bd arg.
Proof. now destruct arg. Qed.

Lemma add_connection_after (source target : block_or_label) (value : Z)
    (c : ndarray) (bd : Board) :
  add_connection source target value (with_connections c bd)
  = match resolve bd source with
    | Raise e => (with_connections c bd, Raise e)
    | Ok source_block =>
      match resolve bd target with
      | Raise e => (with_connections c bd, Raise e)
      | Ok target_block =>
        match py_index source_block (_blocks bd) with
        | Raise e => (with_connections c bd, Raise e)
        | Ok source_idx =>
          match py_index target_block (_blocks bd) with
          | Raise e => (with_connections c bd, Raise e)
          | Ok target_idx =>
            match np_setitem c target_idx source_idx value with
            | Raise e => (with_connections c bd, Raise e)
            | Ok c' => (with_connections c' bd, Ok tt)
            end
          end
        end
      end
    end.
Proof.
  rewrite add_connection_unfold, !resolve_with_connections. reflexivity.
Qed.

Lemma py_index_elem (x : ref) (l : list ref) :
  x ∈ l -> exists k : nat,
    py_index x l = Ok k /\ list_index x l = Some k /\ l !! k = Some x.
Proof.
  intros Hx. destruct (list_index_elem x l Hx) as (k & Hk & Hl).
  exists k. unfold py_index. now rewrite Hk.
Qed.

(** X9.  [add_connection] on a board with a square matrix, between two blocks
    that are on the board.  With a value in the range of [int64] it returns,
    and writes [value] at the row of the target and the column of the source
    (their first positions in the block list); every other entry, the shape,
    the blocks and the labels are as before.  A second [add_connection]
    between the same two blocks overrides the first, and [remove_connection]
    leaves 0 there, whatever the entry was before the connection was added.
    With a value outside the range of [int64] it raises [OverflowError] and
    changes nothing. *)
Theorem add_connection_sets_entry (source target : block_or_label) (value : Z)
    (bd : Board) (s t : ref) :
  square bd ->
  resolve bd source = Ok s -> resolve bd target = Ok t ->
  s ∈ _blocks bd -> t ∈ _blocks bd ->
  exists i j : nat,
    list_index t (_blocks bd) = Some i
    /\ list_index s (_blocks bd) = Some j
    /\ (~ in_int64 value ->
        add_connection source target value bd = (bd, Raise OverflowError))
    /\ (in_int64 value ->
        exists c : ndarray,
          add_connection source target value bd
          = (with_connections c bd, Ok tt)
          /\ shape c = shape (connections bd)
          /\ (forall i' j' : nat,
                entry c i' j'
                = if decide (i' = i /\ j' = j) then Some value
                  else entry (connections bd) i' j')
          /\ (forall v2 : Z,
                in_int64 v2 ->
                add_connection source target v2 (with_connections c bd)
                = add_connection source target v2 bd)
          /\ exists c0 : ndarray,
               remove_connection source target (with_connections c bd)
               = (with_connections c0 bd, Ok tt)
               /\ forall i' j' : nat,
                    entry c0 i' j'
                    = if decide (i' = i /\ j' = j) then Some 0%Z
                      else entry (connections bd) i' j').
Proof.
  intros [Hr Hs] Hsrc Htgt Hsin Htin.
  destruct (py_index_elem s _ Hsin) as (j & Hpj & Hj & Hlj).
  destruct (py_index_elem t _ Htin) as (i & Hpi & Hi & Hli).
  apply lookup_lt_Some in Hlj, Hli.
  injection Hs as Hn Hm.
  assert (forall v : Z, in_int64 v -> exists c : ndarray,
            np_setitem (connections bd) i j v = Ok c) as Hset.
  { intros v Hv. rewrite np_setitem_intro by (assumption || lia). eauto. }
  exists i, j. split; [exact Hi|]. split; [exact Hj|].
  split.
  { intros Hv. rewrite add_connection_unfold, Hsrc, Htgt, Hpj, Hpi.
    unfold np_setitem. rewrite decide_True by lia.
    now rewrite decide_False by exact Hv. }
  intros Hv.
  destruct (Hset value Hv) as [c Hc].
  destruct (Hset 0%Z) as [c0 Hc0].
  { unfold in_int64, int64_min, int64_max. lia. }
  exists c. split.
  { now rewrite add_connection_unfold, Hsrc, Htgt, Hpj, Hpi, Hc. }
  split; [now apply np_setitem_keeps in Hc as [? _]|].
  split; [now apply np_setitem_entry|].
  split.
  { intros v2 Hv2.
    rewrite add_connection_after, add_connection_unfold, Hsrc, Htgt, Hpj, Hpi.
    rewrite (np_setitem_twice _ _ _ _ _ v2 Hc).
    now destruct (Hset v2 Hv2) as [c2 ->]. }
  exists c0. split.
  - unfold remove_connection.
    rewrite add_connection_after, Hsrc, Htgt, Hpj, Hpi.
    now rewrite (np_setitem_twice _ _ _ _ _ 0%Z Hc), Hc0.
  - now apply np_setitem_entry.
Qed.

Lemma add_connection_sets_entry_witness :
  (exists c : ndarray,
      add_connection (ByBlock 0) (ByBlock 1) (-1) mutual_board
      = (with_connections c mutual_board, Ok tt)
      /\ entry c 1 0 = Some (-1)%Z /\ entry c 0 1 = Some 1%Z)
  /\ add_connection (ByBlock 0) (ByBlock 1) (2 ^ 63) mutual_board
     = (mutual_board, Raise OverflowError).
Proof.
  assert (Hsq : square mutual_board)
    by (split; [repeat constructor|reflexivity]).
  assert (H0 : 0 ∈ _blocks mutual_board) by apply list_elem_of_here.
  assert (H1 : 1 ∈ _blocks mutual_board)
    by apply list_elem_of_further, list_elem_of_here.
  split.
  - destruct (add_connection_sets_entry (ByBlock 0) (ByBlock 1) (-1)
                mutual_board 0 1 Hsq eq_refl eq_refl H0 H1)
      as (i & j & Hi & Hj & _ & Hok).
    destruct Hok as (c & Hadd & _ & He & _).
    { unfold in_int64, int64_min, int64_max. lia. }
    exists c. split; [exact Hadd|].
    injection Hi as <-. injection Hj as <-.
    rewrite !He. split; reflexivity.
  - destruct (add_connection_sets_entry (ByBlock 0) (ByBlock 1) (2 ^ 63)
                mutual_board 0 1 Hsq eq_refl eq_refl H0 H1)
      as (i & j & _ & _ & Hover & _).
    apply Hover. unfold in_int64, int64_min, int64_max. lia.
Defined.

Lemma list_index_lookup (x : ref) (l : list ref) (k : nat) :
  list_index x l = Some k -> l !! k = Some x.
Proof.
  revert k. induction l as [|y l IH]; intros k; [discriminate|]. cbn.
  destruct (decide (y = x)) as [->|Hne].
  - now intros [= <-].
  - destruct (list_index x l) as [k'|]; [|discriminate].
    intros [= <-]. cbn. now apply IH.
Qed.

Lemma py_index_inj (x y : ref) (l : list ref) (k : nat) :
  py_index x l = Ok k -> py_index y l = Ok k -> x = y.
Proof.
  unfold py_index.
  destruct (list_index x l) as [kx|] eqn:Hx; [|discriminate].
  destruct (list_index y l) as [ky|] eqn:Hy; [|discriminate].
  intros [= ->] [= ->].
  apply list_index_lookup in Hx, Hy. congruence.
Qed.

Lemma add_connection_cases (source target : block_or_label) (value : Z)
    (bd : Board) :
  (exists e : exn, forall c : ndarray,
      add_connection source target value (with_connections c bd)
      = (with_connections c bd, Raise e))
  \/ (exists (a b : ref) (i j : nat),
        resolve bd source = Ok a /\ resolve bd target = Ok b
        /\ py_index a (_blocks bd) = Ok j /\ py_index b (_blocks bd) = Ok i
        /\ forall c : ndarray,
             add_connection source target value (with_connections c bd)
             = match np_setitem c i j value with
               | Raise e => (with_connections c bd, Raise e)
               | Ok c' => (with_connections c' bd, Ok tt)
               end).
Proof.
  destruct (resolve bd source) as [a|e] eqn:Hs.
  2: { left. exists e. intros c. now rewrite add_connection_after, Hs. }
  destruct (resolve bd target) as [b|e] eqn:Ht.
  2: { left. exists e. intros c. now rewrite add_connection_after, Hs, Ht. }
  destruct (py_index a (_blocks bd)) as [j|e] eqn:Hj.
  2: { left. exists e. intros c. now rewrite add_connection_after, Hs, Ht, Hj. }
  destruct (py_index b (_blocks bd)) as [i|e] eqn:Hi.
  2: { left. exists e. intros c.
       now rewrite add_connection_after, Hs, Ht, Hj, Hi. }
  right. exists a, b, i, j. do 4 (split; [first [reflexivity|assumption]|]).
  intros c. now rewrite add_connection_after, Hs, Ht, Hj, Hi.
Qed.

Lemma add_connection_frame (source target : block_or_label) (value : Z)
    (c : ndarray) (bd : Board) :
  exists c' : ndarray,
    fst (add_connection source target value (with_connections c bd))
    = with_connections c' bd.
Proof.
  destruct (add_connection_cases source target value bd)
    as [[e He]|(a & b & i & j & _ & _ & _ & _ & He)]; rewrite He.
  - now exists c.
  - destruct (np_setitem c i j value) as [c'|e]; [now exists c'|now exists c].
Qed.

(** X10.  Two [add_connection] calls between different pairs of blocks
    commute: the board after both is the same in either order, whether or
    not one of them raises. *)
Theorem add_connection_commute (s1 t1 s2 t2 : block_or_label) (v1 v2 : Z)
    (bd : Board) :
  (resolve bd s1, resolve bd t1) <> (resolve bd s2, resolve bd t2) ->
  fst (add_connection s2 t2 v2 (fst (add_connection s1 t1 v1 bd)))
  = fst (add_connection s1 t1 v1 (fst (add_connection s2 t2 v2 bd))).
Proof.
  intros Hne.
  destruct bd as [bl lm c].
  set (bd := {| _blocks := bl; _labelled_blocks := lm; connections := c |}) in *.
  change (fst (add_connection s2 t2 v2
                 (fst (add_connection s1 t1 v1 (with_connections c bd))))
          = fst (add_connection s1 t1 v1
                   (fst (add_connection s2 t2 v2 (with_connections c bd))))).
  destruct (add_connection_cases s1 t1 v1 bd)
    as [[e1 H1]|(a1 & b1 & i1 & j1 & Hs1 & Ht1 & Hj1 & Hi1 & H1)].
  { rewrite (H1 c). cbn [fst].
    destruct (add_connection_frame s2 t2 v2 c bd) as [c' ->]. now rewrite H1. }
  destruct (add_connection_cases s2 t2 v2 bd)
    as [[e2 H2]|(a2 & b2 & i2 & j2 & Hs2 & Ht2 & Hj2 & Hi2 & H2)].
  { rewrite (H2 c). cbn [fst].
    destruct (add_connection_frame s1 t1 v1 c bd) as [c' ->]. now rewrite H2. }
  assert ((i1, j1) <> (i2, j2)) as Hij.
  { intros [= -> ->]. apply Hne. rewrite Hs1, Ht1, Hs2, Ht2.
    now rewrite (py_index_inj _ _ _ _ Hj1 Hj2), (py_index_inj _ _ _ _ Hi1 Hi2). }
  rewrite (H1 c), (H2 c).
  destruct (np_setitem c i1 j1 v1) as [c1|e1] eqn:E1;
    destruct (np_setitem c i2 j2 v2) as [c2|e2] eqn:E2; cbn [fst];
    rewrite ?H1, ?H2, ?E1, ?E2.
  - destruct (np_setitem_commute c c1 c2 i1 j1 i2 j2 v1 v2 Hij E1 E2)
      as [Heq [d Hd]].
    rewrite <- Heq, Hd. reflexivity.
  - apply np_setitem_keeps in E1 as Hsh. destruct Hsh as [Hsh _].
    now rewrite (np_setitem_raise c c1 i2 j2 v2 e2 Hsh E2).
  - apply np_setitem_keeps in E2 as Hsh. destruct Hsh as [Hsh _].
    now rewrite (np_setitem_raise c c2 i1 j1 v1 e1 Hsh E1).
  - reflexivity.
Qed.

Lemma add_connection_commute_witness :
  fst (add_connection (ByBlock 1) (ByBlock 0) 5
         (fst (add_connection (ByBlock 0) (ByBlock 1) (-1) mutual_board)))
  = fst (add_connection (ByBlock 0) (ByBlock 1) (-1)
           (fst (add_connection (ByBlock 1) (ByBlock 0) 5 mutual_board))).
Proof.
  apply (add_connection_commute (ByBlock 0) (ByBlock 1) (ByBlock 1) (ByBlock 0)).
  cbn. congruence.
Defined.

(** ** Observing the board between steps *)

Section Extensional.
Context {F : Type} `{Number F}.

Lemma latch_all_ext (l : list ref) (σ σ' : store F) :
  (forall r, σ r = σ' r) -> forall r, latch_all l σ r = latch_all l σ' r.
Proof.
  revert σ σ'. induction l as [|x l IH]; intros σ σ' Heq r; [apply Heq|].
  cbn [latch_all]. apply IH. intros r'. unfold store_set.
  destruct (decide (r' = x)); [now rewrite Heq|apply Heq].
Qed.

Lemma sampled_ext (l : list ref) (σ σ' : store F) :
  (forall r, σ r = σ' r) -> sampled l σ = sampled l σ'.
Proof.
  revert σ σ'. induction l as [|x l IH]; intros σ σ' Heq; [reflexivity|].
  cbn [sampled]. rewrite (Heq x). f_equal. apply IH. intros r'.
  unfold store_set. destruct (decide (r' = x)); [reflexivity|apply Heq].
Qed.

Lemma for_each_update_cons (x : ref) (s : Z) (calls : list (ref * Z))
    (σ : store F) :
  for_each ((x, s) :: calls) (fun '(b, s) => call_update b s) σ
  = match update (σ x) s with
    | Ok b' =>
        for_each calls (fun '(b, s) => call_update b s) (store_set x b' σ)
    | Raise e => (σ, Raise e)
    end.
Proof.
  cbn [for_each]. rewrite St_bind_unfold. unfold call_update at 1.
  now destruct (update (σ x) s).
Qed.

Lemma for_each_update_ext (calls : list (ref * Z)) (σ σ' : store F) :
  (forall r, σ r = σ' r) ->
  snd (for_each calls (fun '(b, s) => call_update b s) σ)
  = snd (for_each calls (fun '(b, s) => call_update b s) σ')
  /\ forall r,
       fst (for_each calls (fun '(b, s) => call_update b s) σ) r
       = fst (for_each calls (fun '(b, s) => call_update b s) σ') r.
Proof.
  revert σ σ'. induction calls as [|[x s] calls IH]; intros σ σ' Heq.
  - split; [reflexivity|exact Heq].
  - rewrite !for_each_update_cons, <- (Heq x). destruct (update (σ x) s) as [b'|e].
    + apply IH. intros r. unfold store_set.
      destruct (decide (r = x)); [reflexivity|apply Heq].
    + split; [reflexivity|exact Heq].
Qed.
End Extensional.

Section Observation.
Context {F : Type} `{NumberOrder F}.

Lemma latch_all_thresholds (l : list ref) (σ : store F) (r : ref) :
  lower (latch_all l σ r) = lower (σ r)
  /\ upper (latch_all l σ r) = upper (σ r).
Proof. rewrite latch_all_fields. split; reflexivity. Qed.

(** Under ordered thresholds the answer of a block does not depend on how
    often it has been asked before. *)
Lemma is_active_latch_all (l : list ref) (σ : store F) (r : ref) :
  leb (lower (σ r)) (upper (σ r)) = true ->
  is_active (latch_all l σ r) = is_active (σ r).
Proof.
  intros Hle. induction l as [|x l IH] using rev_ind; [reflexivity|].
  rewrite latch_all_app. cbn [latch_all].
  destruct (decide (r = x)) as [<-|Hne].
  - rewrite store_set_eq, is_active_twice; [exact IH|].
    destruct (latch_all_thresholds l σ r) as [-> ->]. exact Hle.
  - now rewrite store_set_ne.
Qed.

Lemma latch_all_elem (l : list ref) (σ : store F) (r : ref) :
  leb (lower (σ r)) (upper (σ r)) = true ->
  r ∈ l -> latch_all l σ r = fst (is_active (σ r)).
Proof.
  intros Hle. induction l as [|x l IH] using rev_ind.
  - intros Hin. now apply elem_of_nil in Hin.
  - intros Hin. rewrite latch_all_app. cbn [latch_all].
    destruct (decide (r = x)) as [<-|Hne].
    + now rewrite store_set_eq, is_active_latch_all.
    + rewrite store_set_ne by exact Hne. apply IH.
      apply elem_of_app in Hin as [Hin|Hin]; [exact Hin|].
      apply list_elem_of_singleton in Hin. contradiction.
Qed.

Lemma sampled_ordered (l : list ref) (σ : store F) :
  (forall r, r ∈ l -> leb (lower (σ r)) (upper (σ r)) = true) ->
  sampled l σ = snapshot σ l.
Proof.
  intros Hle. apply list_eq. intros i. unfold snapshot.
  rewrite list_lookup_fmap.
  destruct (l !! i) as [r|] eqn:Hi; cbn.
  - rewrite (sampled_lookup _ _ _ _ Hi), is_active_latch_all; [reflexivity|].
    apply Hle. eapply list_elem_of_lookup_2; eauto.
  - apply lookup_ge_None. rewrite length_sampled. now apply lookup_ge_None.
Qed.

Lemma latch_all_twice (l : list ref) (σ : store F) :
  (forall r, r ∈ l -> leb (lower (σ r)) (upper (σ r)) = true) ->
  forall r, latch_all l (latch_all l σ) r = latch_all l σ r.
Proof.
  intros Hle r. destruct (decide (r ∈ l)) as [Hin|Hout].
  - rewrite (latch_all_elem l (latch_all l σ) r).
    + rewrite (is_active_latch_all l σ r) by auto.
      now rewrite (latch_all_elem l σ r) by auto.
    + destruct (latch_all_thresholds l σ r) as [-> ->]. auto.
    + exact Hin.
  - now rewrite !latch_all_notin.
Qed.

Lemma sampled_twice (l : list ref) (σ : store F) :
  (forall r, r ∈ l -> leb (lower (σ r)) (upper (σ r)) = true) ->
  sampled l (latch_all l σ) = sampled l σ.
Proof.
  intros Hle. rewrite !sampled_ordered.
  - unfold snapshot. apply list_fmap_ext. intros i r Hi.
    rewrite is_active_latch_all; [reflexivity|].
    apply Hle. eapply list_elem_of_lookup_2; eauto.
  - exact Hle.
  - intros r Hr. destruct (latch_all_thresholds l σ r) as [-> ->]. auto.
Qed.

(** X11.  [get_block_states] changes no voltage.  On a board all of whose
    blocks have their deactivation threshold at or below their activation
    threshold (as computed), it reports for every position what the block's
    [is_active] answers in the store before the call, also for a block that
    is on the board more than once; asked a second time it reports the same
    and changes nothing; and a step of [advance] taken after it is the step
    taken without it: same outcome, same blocks. *)
Theorem get_block_states_observes (bd : Board) (σ : store F) :
  (forall r, r ∈ _blocks bd -> leb (lower (σ r)) (upper (σ r)) = true) ->
  exists (σ1 : store F) (states : list Z),
    get_block_states bd σ = (σ1, Ok states)
    /\ get_block_voltages bd σ1 = get_block_voltages bd σ
    /\ states = snapshot σ (_blocks bd)
    /\ (forall r, r ∈ _blocks bd -> σ1 r = fst (is_active (σ r)))
    /\ (exists σ2 : store F,
          get_block_states bd σ1 = (σ2, Ok states)
          /\ forall r, σ2 r = σ1 r)
    /\ snd (advance bd σ1) = snd (advance bd σ)
    /\ forall r, fst (advance bd σ1) r = fst (advance bd σ) r.
Proof.
  intros Hle.
  exists (latch_all (_blocks bd) σ), (sampled (_blocks bd) σ).
  unfold get_block_states. rewrite !mapM_call_is_active.
  split; [reflexivity|]. split.
  { unfold get_block_voltages. apply list_fmap_ext. intros i r _.
    now rewrite latch_all_fields. }
  split; [now apply sampled_ordered|].
  split; [intros r Hr; apply latch_all_elem; auto|].
  split.
  { exists (latch_all (_blocks bd) (latch_all (_blocks bd) σ)).
    split; [now rewrite sampled_twice|]. now apply latch_all_twice. }
  rewrite !advance_unfold, sampled_twice by exact Hle.
  destruct (np_matmul (connections bd) (sampled (_blocks bd) σ)) as [sig|e].
  - apply for_each_update_ext. now apply latch_all_twice.
  - cbn [fst snd]. split; [reflexivity|]. now apply latch_all_twice.
Qed.
End Observation.

Lemma get_block_states_observes_witness :
  exists σ1 : store float,
    get_block_states mutual_board mutual_store = (σ1, Ok [1; 1]%Z)
    /\ snd (advance mutual_board σ1) = snd (advance mutual_board mutual_store).
Proof.
  destruct (get_block_states_observes mutual_board mutual_store)
    as (σ1 & states & Hrun & _ & Hst & _ & _ & Hadv & _).
  - intros r _. reflexivity.
  - exists σ1. rewrite Hrun, Hst. split; [reflexivity|exact Hadv].
Defined.

(** ** [set_connections] *)

Lemma NoDup_take_ref (l : list ref) (n : nat) : NoDup l -> NoDup (take n l).
Proof.
  intros Hnd. rewrite <- (take_drop n l) in Hnd.
  now apply NoDup_app in Hnd as (Hnd & _).
Qed.

Lemma NoDup_lookup_notin_take_le (l : list ref) (i n : nat) (r : ref) :
  NoDup l -> l !! i = Some r -> n <= i -> r ∉ take n l.
Proof.
  intros Hnd Hi Hle Hin. apply list_elem_of_lookup in Hin as [j Hj].
  apply lookup_take_Some in Hj as [Hj Hlt].
  pose proof (NoDup_lookup _ _ _ _ Hnd Hi Hj). lia.
Qed.

Section SetConnections.
Context {F : Type} `{Number F}.

(** X12.  [set_connections] accepts an [int64] matrix of any shape and
    replaces the connections, nothing else.  A matrix whose number of columns
    is not the number of blocks makes the next [advance] raise [ValueError]
    after the blocks were sampled and before any [update]: no voltage has
    changed.  A matrix with the right number of columns but a different
    number [m] of rows is taken without an error: on a board with every block
    placed once and no time constant zero, [advance] returns, the blocks at
    the positions below [m] take the Euler step under the [int64] product of
    their row with the samples, and the blocks at the positions from [m] on
    are sampled but not updated. *)
Theorem set_connections_unchecked (c : ndarray) (bd : Board) (σ : store F) :
  int64_matrix c ->
  set_connections c bd = (with_connections c bd, Ok tt)
  /\ (ncols c <> length (_blocks bd) ->
      exists σ1 : store F,
        advance (with_connections c bd) σ = (σ1, Raise ValueError)
        /\ forall r, σ1 r = set_active (_is_active (σ1 r)) (σ r))
  /\ (ncols c = length (_blocks bd) ->
      NoDup (_blocks bd) ->
      (forall r, r ∈ _blocks bd -> is_zero (time_constant (σ r)) = false) ->
      exists σ' : store F,
        advance (with_connections c bd) σ = (σ', Ok tt)
        /\ (forall (i : nat) (r : ref) (row : list Z),
              _blocks bd !! i = Some r -> rows c !! i = Some row ->
              σ' r
              = set_voltage
                  (euler_step (σ r) (dot row (snapshot σ (_blocks bd)))
                     (_voltage (σ r)))
                  (fst (is_active (σ r))))
        /\ (forall (i : nat) (r : ref),
              _blocks bd !! i = Some r -> nrows c <= i ->
              σ' r = fst (is_active (σ r)))
        /\ (forall r, r ∉ _blocks bd -> σ' r = σ r)).
Proof.
  intros _. split; [reflexivity|]. split.
  - intros Hne. exists (latch_all (_blocks bd) σ).
    rewrite advance_unfold. cbn [connections with_connections _blocks].
    unfold np_matmul. rewrite length_sampled, decide_False by exact Hne.
    split; [reflexivity|]. intros r. apply latch_all_fields.
  - intros Hcols Hnd Hz.
    rewrite advance_unfold. cbn [connections with_connections _blocks].
    rewrite (sampled_nodup _ _ Hnd).
    set (l := _blocks bd) in *.
    set (sigs := (fun row => dot row (snapshot σ l)) <$> rows c).
    assert (np_matmul c (snapshot σ l) = Ok sigs) as ->.
    { unfold np_matmul, snapshot. rewrite length_fmap.
      now rewrite decide_True by exact Hcols. }
    set (m := length l `min` length sigs).
    assert (zip l sigs = zip (take m l) (take m sigs)) as ->.
    { symmetry. apply zip_with_take_both'; unfold m; lia. }
    destruct (for_each_update_nodup (take m l) (take m sigs) (latch_all l σ))
      as (σ' & Hrun & Hin & Hout).
    { now apply NoDup_take_ref. }
    { rewrite !length_take. unfold m. lia. }
    { intros r Hr. rewrite latch_all_fields. cbn. apply Hz.
      apply list_elem_of_lookup in Hr as [j Hj].
      apply lookup_take_Some in Hj as [Hj _].
      eapply list_elem_of_lookup_2; eauto. }
    assert (length sigs = nrows c) as Hlen by apply length_fmap.
    exists σ'. split; [exact Hrun|]. split; [|split].
    + intros i r row Hi Hrow.
      apply lookup_lt_Some in Hi as Hil. apply lookup_lt_Some in Hrow as Hir.
      fold (nrows c) in Hir.
      assert (i < m) as Him by (unfold m; lia).
      rewrite (Hin i r (dot row (snapshot σ l))).
      * rewrite (latch_all_nodup_elem _ _ _ Hnd)
          by (eapply list_elem_of_lookup_2; eauto).
        f_equal. now rewrite (is_active_fields (σ r)).
      * now rewrite lookup_take_lt.
      * rewrite lookup_take_lt by exact Him. unfold sigs.
        now rewrite list_lookup_fmap, Hrow.
    + intros i r Hi Hle.
      rewrite Hout.
      * apply latch_all_nodup_elem; [exact Hnd|].
        eapply list_elem_of_lookup_2; eauto.
      * apply (NoDup_lookup_notin_take_le l i m r Hnd Hi). unfold m. lia.
    + intros r Hr. rewrite Hout.
      * now apply latch_all_notin.
      * intros Hin'. apply Hr.
        apply list_elem_of_lookup in Hin' as [j Hj].
        apply lookup_take_Some in Hj as [Hj _].
        eapply list_elem_of_lookup_2; eauto.
Qed.
End SetConnections.

(** A matrix of one zero row on the mutually exciting pair: the first block
    is discharged, the second is sampled but keeps its 9 V. *)
Lemma set_connections_unchecked_witness :
  exists σ' : store float,
    advance (with_connections {| ncols := 2; rows := [[0; 0]]%Z |}
               mutual_board) mutual_store
    = (σ', Ok tt)
    /\ PrimFloat.ltb (_voltage (σ' 0)) 9%float = true
    /\ σ' 1 = set_active true (mutual_store 1).
Proof.
  assert (Hc : int64_matrix {| ncols := 2; rows := [[0; 0]]%Z |}).
  { repeat constructor; vm_compute; discriminate. }
  assert (Hnd : NoDup (_blocks mutual_board)).
  { cbn. apply NoDup_cons. split; [|apply NoDup_singleton].
    intros Hin. apply list_elem_of_singleton in Hin. discriminate. }
  destruct (set_connections_unchecked {| ncols := 2; rows := [[0; 0]]%Z |}
              mutual_board mutual_store Hc) as (_ & _ & Hadv).
  destruct (Hadv eq_refl Hnd (fun r _ => eq_refl))
    as (σ' & Hrun & Hin & Hout & _).
  exists σ'. split; [exact Hrun|].
  rewrite (Hin 0 0 [0; 0]%Z eq_refl eq_refl).
  rewrite (Hout 1 1 eq_refl ltac:(cbn; lia)).
  split; reflexivity.
Defined.

(** ** The closed form of the Euler recurrences *)

Section ClosedForm.
Local Open Scope Q_scope.

Lemma Q_is_zero_nonzero (x : Q) : ~ x == 0 -> is_zero x = false.
Proof.
  intros Hx. cbn. apply not_true_iff_false. now rewrite Qeq_bool_iff.
Qed.

Lemma Qpower_nat_S (q : Q) (n : nat) :
  q ^ Z.of_nat (S n) == q ^ Z.of_nat n * q.
Proof.
  rewrite Nat2Z.inj_succ, <- Z.add_1_r.
  rewrite Qpower_plus' by lia. now rewrite Qpower_1_r.
Qed.

Lemma Q_euler_charge (b : GeneBlock Q) (s : Z) (n : nat) (v : Q) :
  ~ time_constant b == 0 -> (threshhold b <= s)%Z ->
  euler n b s v
  == 9 - (9 - v) * (1 - (1 # 1000) / time_constant b) ^ Z.of_nat n.
Proof.
  intros Htc Hs. induction n as [|n IH].
  - change (v == 9 - (9 - v) * 1). ring.
  - cbn [euler]. unfold euler_step.
    replace (s >=? threshhold b)%Z with true by (symmetry; lia).
    rewrite Qpower_nat_S. cbn [add sub mul div Q_Number MAX_VOLTAGE DELTA_T
      lit_9_0 lit_1em3].
    set (q := (1 - (1 # 1000) / time_constant b) ^ Z.of_nat n) in *.
    rewrite IH. field. exact Htc.
Qed.

Lemma Q_euler_discharge (b : GeneBlock Q) (s : Z) (n : nat) (v : Q) :
  ~ time_constant b == 0 -> (s < threshhold b)%Z ->
  euler n b s v == v * (1 - (1 # 1000) / time_constant b) ^ Z.of_nat n.
Proof.
  intros Htc Hs. induction n as [|n IH].
  - change (v == v * 1). ring.
  - cbn [euler]. unfold euler_step.
    replace (s >=? threshhold b)%Z with false by (symmetry; lia).
    rewrite Qpower_nat_S. cbn [add sub mul div Q_Number MAX_VOLTAGE DELTA_T
      lit_9_0 lit_1em3].
    set (q := (1 - (1 # 1000) / time_constant b) ^ Z.of_nat n) in *.
    rewrite IH. field. exact Htc.
Qed.


End ClosedForm.

(** ** Switching a block on and off *)

Section Switch.
Local Open Scope Q_scope.

Lemma Q_lower_value (b : GeneBlock Q) :
  lower b == (9 # 2) - hysteresis b * (9 # 2).
Proof. unfold lower. cbn. field. Qed.

Lemma Q_upper_value (b : GeneBlock Q) :
  upper b == (9 # 2) + hysteresis b * (9 # 2).
Proof. unfold upper. cbn. field. Qed.

Lemma Q_gtb_false (x y : Q) : gtb x y = false <-> x <= y.
Proof.
  cbn. rewrite negb_false_iff. apply Qle_bool_iff.
Qed.

End Switch.

(** ** Fixed points in binary64 *)

Lemma float_not_nan_zero (tc : float) :
  PrimFloat.is_nan tc = false -> is_zero tc = false ->
  exists s : bool,
    Prim2SF tc = S754_infinity s
    \/ exists m e, Prim2SF tc = S754_finite s m e.
Proof.
  unfold PrimFloat.is_nan. cbn [is_zero float_Number].
  rewrite !FloatAxioms.eqb_spec.
  destruct (Prim2SF tc) as [s|s| |s m e] eqn:E.
  - intros _ Hz. destruct s; vm_compute in Hz; discriminate.
  - intros _ _. exists s. now left.
  - intros Hn. vm_compute in Hn. discriminate.
  - intros _ _. exists s. right. eauto.
Qed.

Lemma float_charge_saturated (tc : float) :
  PrimFloat.is_nan tc = false -> is_zero tc = false ->
  (9 + (9 - 9) / tc * 0x1.0624dd2f1a9fcp-10)%float = 9%float.
Proof.
  intros Hn Hz. destruct (float_not_nan_zero tc Hn Hz) as [s Hs].
  apply Prim2SF_inj. rewrite add_spec, mul_spec, div_spec.
  destruct Hs as [->|(m & e & ->)]; destruct s; vm_compute; reflexivity.
Qed.

Lemma float_discharge_zero (tc : float) :
  PrimFloat.is_nan tc = false -> is_zero tc = false ->
  (0 - 0 / tc * 0x1.0624dd2f1a9fcp-10)%float = 0%float.
Proof.
  intros Hn Hz. destruct (float_not_nan_zero tc Hn Hz) as [s Hs].
  apply Prim2SF_inj. rewrite sub_spec, mul_spec, div_spec.
  destruct Hs as [->|(m & e & ->)]; destruct s; vm_compute; reflexivity.
Qed.

Lemma update_saturated (b : GeneBlock float) (s : Z) :
  proper_time_constant b -> (threshhold b <= s)%Z ->
  update (turn_on b) s = Ok (turn_on b).
Proof.
  intros [Hn Hz] Hs. rewrite update_euler_step by exact Hz.
  unfold euler_step. cbn [threshhold turn_on set_voltage].
  replace (s >=? threshhold b)%Z with true by (symmetry; lia).
  cbn [_voltage time_constant]. f_equal. unfold turn_on, set_voltage. f_equal.
  exact (float_charge_saturated (time_constant b) Hn Hz).
Qed.

Lemma update_discharged (b : GeneBlock float) (s : Z) :
  proper_time_constant b -> (s < threshhold b)%Z ->
  update (turn_off b) s = Ok (turn_off b).
Proof.
  intros [Hn Hz] Hs. rewrite update_euler_step by exact Hz.
  unfold euler_step. cbn [threshhold turn_off set_voltage].
  replace (s >=? threshhold b)%Z with false by (symmetry; lia).
  cbn [_voltage time_constant]. f_equal. unfold turn_off, set_voltage. f_equal.
  exact (float_discharge_zero (time_constant b) Hn Hz).
Qed.

(** X15.  In binary64, for every block whose time constant is neither zero
    nor NaN (negative, subnormal and infinite ones included): a block at
    exactly [MAX_VOLTAGE] stays at exactly [MAX_VOLTAGE] under any number of
    [update] calls with a signal at or above its threshold, and a block at
    exactly 0.0 stays at 0.0 under any number of [update] calls with a signal
    below it; no call raises and no rounding error accumulates. *)
Theorem saturation_is_exact_in_binary64 (b : GeneBlock float) (s : Z)
    (n : nat) :
  proper_time_constant b ->
  ((threshhold b <= s)%Z -> update_calls n s (turn_on b) = Ok (turn_on b))
  /\ ((s < threshhold b)%Z -> update_calls n s (turn_off b) = Ok (turn_off b)).
Proof.
  intros Htc. split; intros Hs; induction n as [|n IH]; try reflexivity.
  - rewrite update_calls_snoc, IH. now apply update_saturated.
  - rewrite update_calls_snoc, IH. now apply update_discharged.
Qed.

Lemma saturation_is_exact_in_binary64_witness :
  update_calls 1000 2 (turn_on default_GeneBlock) = Ok (turn_on default_GeneBlock)
  /\ update_calls 1000 1 (turn_off default_GeneBlock)
     = Ok (turn_off default_GeneBlock).
Proof.
  assert (proper_time_constant default_GeneBlock) as Htc
    by (split; reflexivity).
  destruct (saturation_is_exact_in_binary64 default_GeneBlock 2 1000 Htc)
    as [Hon _].
  destruct (saturation_is_exact_in_binary64 default_GeneBlock 1 1000 Htc)
    as [_ Hoff].
  split; [apply Hon|apply Hoff]; cbn; lia.
Defined.

(** ** A board at rest *)

Lemma at_rest_is_active (b : GeneBlock float) :
  at_rest b -> is_active b = (b, 0%Z).
Proof.
  intros (Hv & Ha & Hup & _). rewrite is_active_comparator. unfold comparator.
  rewrite Ha, Hv, Hup. cbn. destruct b. cbn in Ha. now subst.
Qed.

Lemma at_rest_update (b : GeneBlock float) :
  at_rest b -> update b 0 = Ok b.
Proof.
  intros (Hv & _ & _ & Ht & Htc).
  assert (b = turn_off b) as E.
  { destruct b. cbn in Hv. now subst. }
  rewrite E. apply update_discharged; [exact Htc|]. cbn. lia.
Qed.

Section Rest.
Context {F : Type} `{Number F}.

Lemma latch_all_settled (l : list ref) (σ : store F) :
  (forall r, r ∈ l -> fst (is_active (σ r)) = σ r) ->
  forall r, latch_all l σ r = σ r.
Proof.
  induction l as [|x l IH]; intros Hs r; [reflexivity|].
  cbn [latch_all]. rewrite <- (IH (fun r Hr => Hs r (list_elem_of_further _ _ _ Hr)) r).
  apply latch_all_ext. intros r'. unfold store_set.
  destruct (decide (r' = x)) as [->|]; [|reflexivity].
  apply Hs, list_elem_of_here.
Qed.

Lemma sampled_settled (l : list ref) (σ : store F) :
  (forall r, r ∈ l -> fst (is_active (σ r)) = σ r) ->
  sampled l σ = snapshot σ l.
Proof.
  induction l as [|x l IH]; intros Hs; [reflexivity|].
  cbn [sampled].
  change (snapshot σ (x :: l)) with (snd (is_active (σ x)) :: snapshot σ l).
  f_equal.
  rewrite <- (IH (fun r Hr => Hs r (list_elem_of_further _ _ _ Hr))).
  apply sampled_ext. intros r'. unfold store_set.
  destruct (decide (r' = x)) as [->|]; [|reflexivity].
  apply Hs, list_elem_of_here.
Qed.

Lemma for_each_update_fixed (calls : list (ref * Z)) (σ σ' : store F) :
  (forall r, σ' r = σ r) ->
  Forall (fun c => update (σ c.1) c.2 = Ok (σ c.1)) calls ->
  snd (for_each calls (fun '(b, s) => call_update b s) σ') = Ok tt
  /\ forall r,
       fst (for_each calls (fun '(b, s) => call_update b s) σ') r = σ r.
Proof.
  intros Heq Hfix. revert σ' Heq.
  induction Hfix as [|[x s] calls Hx _ IH]; intros σ' Heq.
  - split; [reflexivity|exact Heq].
  - rewrite for_each_update_cons, Heq. cbn [fst snd] in Hx. rewrite Hx.
    apply IH. intros r. unfold store_set.
    destruct (decide (r = x)) as [->|]; [reflexivity|apply Heq].
Qed.

Lemma advance_ext (bd : Board) (σ σ' : store F) :
  (forall r, σ r = σ' r) ->
  snd (advance bd σ) = snd (advance bd σ')
  /\ forall r, fst (advance bd σ) r = fst (advance bd σ') r.
Proof.
  intros Heq. rewrite !advance_unfold, (sampled_ext _ σ σ' Heq).
  destruct (np_matmul _ _) as [sig|e].
  - apply for_each_update_ext. now apply latch_all_ext.
  - cbn [fst snd]. split; [reflexivity|]. now apply latch_all_ext.
Qed.

Lemma for_each_seq_shift {S : Type} (m : St S unit) (n a b : nat) (s : S) :
  for_each (seq a n) (fun _ => m) s = for_each (seq b n) (fun _ => m) s.
Proof.
  revert a b s. induction n as [|n IH]; intros a b s; [reflexivity|].
  cbn [seq for_each]. rewrite !St_bind_unfold.
  destruct (m s) as [s' [[]|e]]; [apply IH|reflexivity].
Qed.

Lemma advance_steps_S (n : nat) (bd : Board) (σ : store F) :
  advance_steps (S n) bd σ
  = match advance bd σ with
    | (σ', Ok _) => advance_steps n bd σ'
    | (σ', Raise e) => (σ', Raise e)
    end.
Proof.
  unfold advance_steps. cbn [seq for_each]. rewrite St_bind_unfold.
  destruct (advance bd σ) as [σ' [[]|e]]; [|reflexivity].
  apply for_each_seq_shift.
Qed.
End Rest.

(** X16.  In binary64, on a board whose blocks are all at rest (voltage 0.0,
    latch clear, an activation threshold that is not negative, a threshold of
    at least 1 and a time constant that is neither zero nor NaN), whatever
    the connections: [get_block_states] reports 0 for every block, and any
    number of [advance] steps leaves every block exactly as it is; the steps
    return when the matrix has as many columns as there are blocks.  The
    network of [yeast_cell_cycle.py] is such a board as built: without the
    supply of CLN3 it stays off. *)
Theorem board_at_rest_stays (bd : Board) (σ : store float) (n : nat) :
  (forall r, r ∈ _blocks bd -> at_rest (σ r)) ->
  (exists σ1 : store float,
      get_block_states bd σ
      = (σ1, Ok (replicate (length (_blocks bd)) 0%Z))
      /\ forall r, σ1 r = σ r)
  /\ (forall r, fst (advance_steps n bd σ) r = σ r)
  /\ (ncols (connections bd) = length (_blocks bd) ->
      snd (advance_steps n bd σ) = Ok tt).
Proof.
  intros Hrest.
  assert (Hset : forall σ' : store float, (forall r, σ' r = σ r) ->
            forall r, r ∈ _blocks bd -> fst (is_active (σ' r)) = σ' r).
  { intros σ' Heq r Hr. rewrite Heq. now rewrite at_rest_is_active by auto. }
  assert (Hsam : forall σ' : store float, (forall r, σ' r = σ r) ->
            sampled (_blocks bd) σ' = replicate (length (_blocks bd)) 0%Z).
  { intros σ' Heq. rewrite sampled_settled by now apply Hset.
    unfold snapshot. apply list_eq. intros i.
    rewrite list_lookup_fmap.
    destruct (_blocks bd !! i) as [r|] eqn:Hi; cbn.
    - rewrite lookup_replicate_2 by (now apply lookup_lt_Some in Hi).
      rewrite Heq, at_rest_is_active; [reflexivity|].
      apply Hrest. eapply list_elem_of_lookup_2; eauto.
    - symmetry. apply lookup_ge_None. rewrite length_replicate.
      now apply lookup_ge_None. }
  assert (Hstep : forall σ' : store float, (forall r, σ' r = σ r) ->
            (forall r, fst (advance bd σ') r = σ r)
            /\ (ncols (connections bd) = length (_blocks bd) ->
                snd (advance bd σ') = Ok tt)).
  { intros σ' Heq. rewrite advance_unfold, (Hsam σ' Heq).
    assert (Hl : forall r, latch_all (_blocks bd) σ' r = σ r).
    { intros r. rewrite latch_all_settled by now apply Hset. apply Heq. }
    unfold np_matmul. rewrite length_replicate.
    destruct (decide _) as [Hc|Hc]; [|split; [exact Hl|contradiction]].
    destruct (for_each_update_fixed
                (zip (_blocks bd)
                   ((fun row => dot row (replicate (length (_blocks bd)) 0%Z))
                      <$> rows (connections bd)))
                σ (latch_all (_blocks bd) σ') Hl) as [Hres Hst].
    - apply Forall_forall. intros [r s] Hin.
      apply list_elem_of_lookup in Hin as [i Hi].
      apply lookup_zip_with_Some in Hi as (r' & s' & [= <- <-] & Hr & Hs).
      rewrite list_lookup_fmap in Hs.
      destruct (rows (connections bd) !! i) as [row|]; [|discriminate].
      injection Hs as <-. cbn [fst snd].
      assert (dot row (replicate (length (_blocks bd)) 0%Z) = 0%Z) as ->.
      { generalize (length (_blocks bd)). clear.
        induction row as [|x row IH]; intros [|k]; try reflexivity.
        change (dot (x :: row) (replicate (S k) 0%Z))
          with (int64_add (int64_mul x 0) (dot row (replicate k 0%Z))).
        rewrite IH. unfold int64_mul. rewrite Z.mul_0_r. reflexivity. }
      apply at_rest_update, Hrest. eapply list_elem_of_lookup_2; eauto.
    - split; [exact Hst|]. intros _. exact Hres. }
  split.
  { exists (latch_all (_blocks bd) σ). unfold get_block_states.
    rewrite mapM_call_is_active, (Hsam σ) by reflexivity.
    split; [reflexivity|]. intros r.
    apply latch_all_settled. now apply Hset. }
  assert (Hn : forall σ' : store float, (forall r, σ' r = σ r) ->
            (forall r, fst (advance_steps n bd σ') r = σ r)
            /\ (ncols (connections bd) = length (_blocks bd) ->
                snd (advance_steps n bd σ') = Ok tt)).
  { induction n as [|n IH]; intros σ' Heq.
    - split; [exact Heq|reflexivity].
    - rewrite advance_steps_S.
      destruct (Hstep σ' Heq) as [Hst Hres].
      destruct (advance bd σ') as [σ'' [[]|e]]; cbn [fst snd] in *.
      + now apply IH.
      + split; [exact Hst|]. intros Hc. now specialize (Hres Hc). }
  destruct (Hn σ (fun r => eq_refl)) as [H1 H2]. split; assumption.
Qed.

Lemma board_at_rest_stays_witness :
  (forall r, fst (advance_steps 3000 yeast_board yeast_store) r = yeast_store r)
  /\ snd (advance_steps 3000 yeast_board yeast_store) = Ok tt.
Proof.
  assert (Hb : _blocks yeast_board = seq 0 12) by (vm_compute; reflexivity).
  assert (Hc : ncols (connections yeast_board) = length (_blocks yeast_board))
    by (vm_compute; reflexivity).
  assert (Hrest : forall r, r ∈ _blocks yeast_board -> at_rest (yeast_store r)).
  { intros r Hr. rewrite Hb in Hr. apply elem_of_seq in Hr.
    assert (r < 12) as Hlt by lia. clear Hr.
    do 12 (destruct r as [|r];
           [repeat split; first [reflexivity | cbn; lia]|]).
    lia. }
  destruct (board_at_rest_stays yeast_board yeast_store 3000 Hrest)
    as (_ & Hst & Hres).
  split; [exact Hst|exact (Hres Hc)].
Defined.

(** ** When the simulation loop raises *)

Section Outcome.
Context {F : Type} `{Number F}.

Lemma update_outcome (b : GeneBlock F) (s : Z) :
  if is_zero (time_constant b)
  then update b s = Raise ZeroDivisionError
  else exists v : F, update b s = Ok (set_voltage v b).
Proof.
  destruct (is_zero (time_constant b)) eqn:Hz.
  - unfold update, _charge, _discharge, py_div. rewrite Hz.
    now destruct (s >=? threshhold b)%Z.
  - rewrite update_euler_step by exact Hz. eauto.
Qed.

Lemma same_parameters_trans (b1 b2 b3 : GeneBlock F) :
  same_parameters b1 b2 -> same_parameters b2 b3 -> same_parameters b1 b3.
Proof.
  intros (? & ? & ? & ?) (? & ? & ? & ?). repeat split; congruence.
Qed.

Lemma latch_all_parameters (l : list ref) (σ : store F) (r : ref) :
  same_parameters (latch_all l σ r) (σ r).
Proof. rewrite latch_all_fields. repeat split. Qed.

Lemma for_each_update_outcome (calls : list (ref * Z)) (σ σ' : store F) :
  (forall r, same_parameters (σ' r) (σ r)) ->
  (forall r,
      same_parameters
        (fst (for_each calls (fun '(b, s) => call_update b s) σ') r) (σ r))
  /\ snd (for_each calls (fun '(b, s) => call_update b s) σ')
     = if forallb (divides σ) calls.*1 then Ok tt
       else Raise ZeroDivisionError.
Proof.
  revert σ'. induction calls as [|[x s] calls IH]; intros σ' Hp.
  - split; [exact Hp|reflexivity].
  - rewrite for_each_update_cons. cbn [fmap list_fmap fst forallb].
    pose proof (update_outcome (σ' x) s) as Hu.
    change (divides σ x) with (negb (is_zero (time_constant (σ x)))).
    destruct (Hp x) as (_ & _ & Htc & _). rewrite <- Htc.
    destruct (is_zero (time_constant (σ' x))).
    + rewrite Hu. split; [exact Hp|reflexivity].
    + destruct Hu as [v ->]. cbn [negb andb]. apply IH. intros r.
      unfold store_set. destruct (decide (r = x)) as [->|]; [|apply Hp].
      eapply same_parameters_trans; [|apply Hp]. repeat split.
Qed.

Lemma fst_zip_take {A B : Type} (l : list A) (k : list B) :
  (zip l k).*1 = take (length k) l.
Proof.
  revert k. induction l as [|x l IH]; intros [|y k]; cbn; try reflexivity.
  now rewrite IH.
Qed.

Lemma advance_outcome (bd : Board) (σ σ' : store F) :
  (forall r, same_parameters (σ' r) (σ r)) ->
  (forall r, same_parameters (fst (advance bd σ') r) (σ r))
  /\ snd (advance bd σ')
     = if decide (ncols (connections bd) = length (_blocks bd)) then
         if forallb (divides σ)
              (take (nrows (connections bd)) (_blocks bd))
         then Ok tt else Raise ZeroDivisionError
       else Raise ValueError.
Proof.
  intros Hp. rewrite advance_unfold. unfold np_matmul.
  rewrite length_sampled.
  assert (Hl : forall r,
            same_parameters (latch_all (_blocks bd) σ' r) (σ r)).
  { intros r. eapply same_parameters_trans;
      [apply latch_all_parameters|apply Hp]. }
  destruct (decide _) as [Hc|Hc]; [|split; [exact Hl|reflexivity]].
  destruct (for_each_update_outcome
              (zip (_blocks bd)
                 ((fun row => dot row (sampled (_blocks bd) σ'))
                    <$> rows (connections bd)))
              σ (latch_all (_blocks bd) σ') Hl) as [Hst Hres].
  split; [exact Hst|]. rewrite Hres, fst_zip_take, length_fmap. reflexivity.
Qed.

Lemma advance_steps_outcome_bool (bd : Board) (σ : store F) (n : nat) :
  (forall r, same_parameters (fst (advance_steps n bd σ) r) (σ r))
  /\ snd (advance_steps (S n) bd σ)
     = if decide (ncols (connections bd) = length (_blocks bd)) then
         if forallb (divides σ)
              (take (nrows (connections bd)) (_blocks bd))
         then Ok tt else Raise ZeroDivisionError
       else Raise ValueError.
Proof.
  assert (Hgen : forall σ' : store F,
            (forall r, same_parameters (σ' r) (σ r)) ->
            (forall r, same_parameters (fst (advance_steps n bd σ') r) (σ r))
            /\ snd (advance_steps (S n) bd σ')
               = if decide (ncols (connections bd) = length (_blocks bd)) then
                   if forallb (divides σ)
                        (take (nrows (connections bd)) (_blocks bd))
                   then Ok tt else Raise ZeroDivisionError
                 else Raise ValueError).
  { induction n as [|n IH]; intros σ' Hp.
    - split; [exact Hp|]. rewrite advance_steps_S.
      destruct (advance_outcome bd σ σ' Hp) as [_ Hres].
      destruct (advance bd σ') as [σ'' [[]|e]]; cbn [snd] in *; exact Hres.
    - destruct (advance_outcome bd σ σ' Hp) as [Hst Hres].
      rewrite (advance_steps_S (S n)), (advance_steps_S n).
      destruct (advance bd σ') as [σ'' [[]|e]]; cbn [fst snd] in *.
      + destruct (IH σ'' Hst) as [IH1 IH2]. split; [exact IH1|exact IH2].
      + split; [exact Hst|exact Hres]. }
  apply Hgen. intros r. repeat split.
Qed.

(** X17.  [advance], repeated any number of times, writes no hysteresis,
    threshold, time constant or label, whether or not it raises and whether
    or not a block is on the board twice.  From the first step on, the
    outcome of the loop is decided by the board and the time constants alone:
    a matrix whose number of columns is not the number of blocks raises
    [ValueError]; otherwise a zero time constant of a block that has a row in
    the matrix raises [ZeroDivisionError]; otherwise every step returns. *)
Theorem advance_steps_outcome (bd : Board) (σ : store F) (n : nat) :
  (forall r, same_parameters (fst (advance_steps n bd σ) r) (σ r))
  /\ (ncols (connections bd) <> length (_blocks bd) ->
      snd (advance_steps (S n) bd σ) = Raise ValueError)
  /\ (ncols (connections bd) = length (_blocks bd) ->
      (forall r, r ∈ take (nrows (connections bd)) (_blocks bd) ->
         is_zero (time_constant (σ r)) = false) ->
      snd (advance_steps (S n) bd σ) = Ok tt)
  /\ (ncols (connections bd) = length (_blocks bd) ->
      forall r, r ∈ take (nrows (connections bd)) (_blocks bd) ->
        is_zero (time_constant (σ r)) = true ->
        snd (advance_steps (S n) bd σ) = Raise ZeroDivisionError).
Proof.
  destruct (advance_steps_outcome_bool bd σ n) as [Hp Hres].
  split; [exact Hp|]. rewrite Hres. split; [|split].
  - intros Hc. now rewrite decide_False.
  - intros Hc Hz. rewrite decide_True by exact Hc.
    assert (forallb (divides σ) (take (nrows (connections bd)) (_blocks bd))
            = true) as ->; [|reflexivity].
    apply forallb_forall. intros r Hr. unfold divides.
    rewrite Hz; [reflexivity|]. now apply list_elem_of_In.
  - intros Hc r Hr Hz. rewrite decide_True by exact Hc.
    destruct (forallb _ _) eqn:Hall; [|reflexivity]. exfalso.
    rewrite forallb_forall in Hall.
    apply list_elem_of_In in Hr. specialize (Hall r Hr).
    unfold divides in Hall. rewrite Hz in Hall. discriminate.
Qed.
End Outcome.

(** ** The board of [yeast_cell_cycle.py] *)

(** The set-up of [main] returns: every label of the 22 [add_connection]
    calls is known.  It leaves the 12 blocks in list order, each found under
    its label, and a 12 by 12 matrix with 19 connections of value 1 and 2 of
    value -1; the connection from [SWI5 & ACE2] to [CLN3] is added twice. *)
Example yeast_setup_returns :
  yeast_setup new_Board = (yeast_board, Ok tt)
  /\ _blocks yeast_board = seq 0 12
  /\ (forall (r : ref) (b : GeneBlock float),
        yeast_blocks !! r = Some b ->
        getitem yeast_board (ItemStr (get_label b)) = Ok r)
  /\ connections yeast_board
     = {| ncols := 12;
          rows := [ [0; 0; 0; 0; 1; 0; 1; 0; 0; 0; 0; 0];
                    [0; 0; 0; 0; 1; 0; 1; 0; 0; 0; 0; 0];
                    [0; 0; 0; 0; 1; 0; 1; 0; 0; 0; 0; 0];
                    [0; 0; 0; 0; 0; 0; 0; 0; 0; -1; 1; 0];
                    [0; 0; 0; 0; 0; 0; 0; 0; 0; -1; 0; 1];
                    [0; 0; 1; 0; 1; 0; 0; 0; 0; 0; 0; 0];
                    [0; 0; 0; 1; 0; 0; 0; 0; 0; 0; 0; 0];
                    [0; 0; 0; 0; 0; 1; 0; 0; 0; 0; 0; 0];
                    [0; 0; 0; 0; 0; 1; 0; 0; 0; 0; 0; 0];
                    [1; 1; 0; 0; 0; 0; 0; 0; 0; 0; 0; 0];
                    [0; 0; 0; 0; 0; 0; 0; 1; 1; 0; 0; 0];
                    [0; 0; 0; 1; 0; 0; 1; 0; 0; 0; 0; 0] ]%Z |}.
Proof.
  split; [vm_compute; reflexivity|]. split; [vm_compute; reflexivity|].
  split; [|vm_compute; reflexivity].
  intros r b Hr.
  do 12 (destruct r as [|r];
         [injection Hr as <-; vm_compute; reflexivity|]).
  discriminate.
Qed.

(** ** The loops of [yeast_cell_cycle.py] *)

Section Loops.
Context {F : Type} `{Number F}.

Variables (bd : Board) (σ0 : store F).
Hypothesis Hcols : ncols (connections bd) = length (_blocks bd).
Hypothesis Hz : forall r, r ∈ take (nrows (connections bd)) (_blocks bd) ->
  is_zero (time_constant (σ0 r)) = false.

Lemma advance_returns (σ : store F) :
  (forall r, same_parameters (σ r) (σ0 r)) ->
  exists σ' : store F,
    advance bd σ = (σ', Ok tt) /\ forall r, same_parameters (σ' r) (σ0 r).
Proof.
  intros Hp. destruct (advance_outcome bd σ0 σ Hp) as [Hst Hres].
  rewrite decide_True in Hres by exact Hcols.
  assert (forallb (divides σ0) (take (nrows (connections bd)) (_blocks bd))
          = true) as Hall.
  { apply forallb_forall. intros r Hr. unfold divides.
    rewrite Hz; [reflexivity|]. now apply list_elem_of_In. }
  rewrite Hall in Hres. exists (fst (advance bd σ)).
  split; [|exact Hst].
  destruct (advance bd σ) as [σ' res]. cbn in Hres. now subst.
Qed.

Lemma supply_step (lbl : string) (block : ref) (σ : store F) :
  _labelled_blocks bd !! lbl = Some block ->
  (block ← lift (getitem bd (ItemStr lbl));
   call_turn_on block ;;
   advance bd) σ
  = advance bd (store_set block (turn_on (σ block)) σ).
Proof.
  intros Hlbl. rewrite St_bind_unfold. unfold lift at 1.
  cbn [getitem]. unfold _get_block_by_label. now rewrite Hlbl.
Qed.

Lemma supply_returns (lbl : string) (block : ref) (n a : nat) (σ : store F) :
  _labelled_blocks bd !! lbl = Some block ->
  (forall r, same_parameters (σ r) (σ0 r)) ->
  exists σ' : store F,
    for_each (seq a n) (fun _ =>
        block ← lift (getitem bd (ItemStr lbl));
        call_turn_on block ;;
        advance bd) σ
    = (σ', Ok tt)
    /\ forall r, same_parameters (σ' r) (σ0 r).
Proof.
  intros Hlbl. revert a σ. induction n as [|n IH]; intros a σ Hp.
  - exists σ. split; [reflexivity|exact Hp].
  - cbn [seq for_each]. rewrite St_bind_unfold.
    rewrite (supply_step lbl block σ Hlbl).
    destruct (advance_returns (store_set block (turn_on (σ block)) σ))
      as (σ1 & -> & Hp1).
    { intros r. unfold store_set. destruct (decide (r = block)) as [->|];
        [|apply Hp].
      eapply same_parameters_trans; [|apply Hp]. repeat split. }
    now apply IH.
Qed.

Lemma measure_step (w : nat) (σ σ1 : store F) :
  length (_blocks bd) = w + 3 ->
  advance bd σ = (σ1, Ok tt) ->
  (advance bd ;;
   states ← get_block_states bd;
   lift (np_assign_row w (take (length states - 3) states))) σ
  = (latch_all (_blocks bd) σ1, Ok (take w (sampled (_blocks bd) σ1))).
Proof.
  intros Hlen Hadv. rewrite St_bind_unfold, Hadv, St_bind_unfold.
  unfold get_block_states. rewrite mapM_call_is_active. unfold lift.
  rewrite length_sampled, Hlen.
  replace (w + 3 - 3) with w by lia.
  unfold np_assign_row. rewrite decide_True; [reflexivity|].
  rewrite length_take, length_sampled. lia.
Qed.

Lemma measure_returns (w n a : nat) (σ : store F) :
  length (_blocks bd) = w + 3 ->
  (forall r, same_parameters (σ r) (σ0 r)) ->
  exists (σ' : store F) (activities : list (list Z)),
    mapM (fun _ =>
        advance bd ;;
        states ← get_block_states bd;
        lift (np_assign_row w (take (length states - 3) states)))
      (seq a n) σ
    = (σ', Ok activities)
    /\ (forall r, same_parameters (σ' r) (σ0 r))
    /\ length activities = n
    /\ Forall (fun row => length row = w
                 /\ Forall (fun v => v = 0%Z \/ v = 1%Z) row) activities.
Proof.
  intros Hlen. revert a σ. induction n as [|n IH]; intros a σ Hp.
  - exists σ, []. split; [reflexivity|]. split; [exact Hp|].
    split; [reflexivity|constructor].
  - cbn [seq mapM]. rewrite St_bind_unfold.
    destruct (advance_returns σ Hp) as (σ1 & Hadv & Hp1).
    rewrite (measure_step w σ σ1 Hlen Hadv), St_bind_unfold.
    destruct (IH (S a) (latch_all (_blocks bd) σ1))
      as (σ' & acts & -> & Hp' & Hl & Hrows).
    { intros r. eapply same_parameters_trans;
        [apply latch_all_parameters|apply Hp1]. }
    exists σ', (take w (sampled (_blocks bd) σ1) :: acts).
    split; [reflexivity|]. split; [exact Hp'|]. split; [cbn; lia|].
    constructor; [|exact Hrows]. split.
    + rewrite length_take, length_sampled. lia.
    + apply Forall_take, sampled_bits.
Qed.
End Loops.

(** X18.  The two loops of [main] in [yeast_cell_cycle.py] -- [n] steps of
    [board[lbl].turn_on(); board.advance()], then [m] steps of
    [board.advance()] each followed by storing [get_block_states()[:-3]] in a
    row of width 9 -- on any board of 12 blocks whose label map knows [lbl],
    whose matrix is 12 by 12 and none of whose blocks has a zero time
    constant: no step raises, the loops leave [m] rows of 9 entries, each 0
    or 1, and no hysteresis, threshold, time constant or label has changed.
    The board [main] builds is such a board. *)
Theorem simulation_returns {F : Type} `{Number F} (bd : Board) (σ : store F)
    (lbl : string) (n m : nat) :
  is_Some (_labelled_blocks bd !! lbl) ->
  length (_blocks bd) = 12 ->
  shape (connections bd) = (12, 12) ->
  (forall r, r ∈ _blocks bd -> is_zero (time_constant (σ r)) = false) ->
  exists (σ' : store F) (activities : list (list Z)),
    simulate bd lbl n m σ = (σ', Ok activities)
    /\ length activities = m
    /\ Forall (fun row => length row = 9
                 /\ Forall (fun v => v = 0%Z \/ v = 1%Z) row) activities
    /\ forall r, same_parameters (σ' r) (σ r).
Proof.
  intros [block Hlbl] Hlen Hshape Hz. injection Hshape as Hn Hm.
  assert (Hcols : ncols (connections bd) = length (_blocks bd)) by congruence.
  assert (Hz' : forall r, r ∈ take (nrows (connections bd)) (_blocks bd) ->
            is_zero (time_constant (σ r)) = false).
  { intros r Hr. apply Hz. apply list_elem_of_lookup in Hr as [j Hj].
    apply lookup_take_Some in Hj as [Hj _].
    eapply list_elem_of_lookup_2; eauto. }
  unfold simulate, supply, measure. rewrite St_bind_unfold.
  destruct (supply_returns bd σ Hcols Hz' lbl block n 0 σ Hlbl)
    as (σ1 & -> & Hp1).
  { intros r. repeat split. }
  destruct (measure_returns bd σ Hcols Hz' 9 m 0 σ1 Hlen Hp1)
    as (σ' & acts & -> & Hp' & Hl & Hrows).
  exists σ', acts. split; [reflexivity|]. split; [exact Hl|].
  split; [exact Hrows|exact Hp'].
Qed.

Lemma simulation_returns_witness :
  exists (σ' : store float) (activities : list (list Z)),
    simulate yeast_board "CLN3" 3000 (Z.to_nat 100000) yeast_store
    = (σ', Ok activities)
    /\ length activities = Z.to_nat 100000.
Proof.
  destruct (simulation_returns yeast_board yeast_store "CLN3" 3000
              (Z.to_nat 100000))
    as (σ' & acts & Hrun & Hl & _).
  - exists 3. vm_compute. reflexivity.
  - vm_compute. reflexivity.
  - vm_compute. reflexivity.
  - assert (Hb : _blocks yeast_board = seq 0 12) by (vm_compute; reflexivity).
    intros r Hr. rewrite Hb in Hr. apply elem_of_seq in Hr.
    assert (r < 12) as Hlt by lia. clear Hr.
    do 12 (destruct r as [|r]; [reflexivity|]). lia.
  - exists σ', acts. split; [exact Hrun|exact Hl].
Defined.
